(** * Provider layer of config_camp2026: a shallow embedding

    This development embeds the external-provider abstraction layer of the
    backend (error taxonomy and classifier, retry executor, metadata
    sanitiser, credential masking, attach polling, provider factory) and
    proves the properties the specification states about it.

    Conventions of the embedding.
    - A JavaScript [number] that the code only uses as an integer (HTTP
      status, attempt counter, retry delay) is a [Z]; the polling delay,
      which is multiplied by 1.5, is a [Q].
    - A value that may be [undefined] is an [option]; [None] is
      [undefined]/[null].  JavaScript truthiness is written out: the empty
      string and the number 0 are falsy.
    - Where objects are spread into one another, a property is a
      [Property]: missing, or present and holding [undefined] or a value.
    - The numbers inside a metadata record belong to a type left open,
      together with the text [JSON.stringify] gives each of them.
    - An asynchronous function is a function returning a [Completion]
      (fulfilled or rejected promise) together with the list of [Event]s it
      performed, in order. *)

From Stdlib Require Import ZArith List String Ascii Bool Lia QArith Qminmax.
From Stdlib Require Import DecimalString.
From stdpp Require Import gmap strings.
Import ListNotations.

Local Open Scope Z_scope.

(* ===================================================================== *)
(** * JavaScript values and helpers *)
(* ===================================================================== *)

Module Js.

(** Truthiness of an optional string: [undefined] and the empty string are
    falsy. *)
Definition truthyStr (o : option string) : bool :=
  match o with
  | Some s => negb (String.eqb s EmptyString)
  | None => false
  end.

(** Truthiness of an optional number: [undefined] and 0 are falsy. *)
Definition truthyNum (o : option Z) : bool :=
  match o with
  | Some z => negb (z =? 0)
  | None => false
  end.

(** [a || b] on optional strings. *)
Definition orStr (a b : option string) : option string :=
  if truthyStr a then a else b.

(** [a || b] on optional numbers. *)
Definition orNum (a b : option Z) : option Z :=
  if truthyNum a then a else b.

(** [a || "literal"]. *)
Definition orStrDefault (a : option string) (d : string) : string :=
  match a with
  | Some s => if String.eqb s EmptyString then d else s
  | None => d
  end.

(** [a || 500]. *)
Definition orNumDefault (a : option Z) (d : Z) : Z :=
  match a with
  | Some z => if z =? 0 then d else z
  | None => d
  end.

(** Optional chaining [o?.f] for a property [f] that may itself be
    [undefined]. *)
Definition chain {A B : Type} (o : option A) (f : A -> option B) : option B :=
  match o with
  | Some a => f a
  | None => None
  end.

(** Template-literal rendering of an integer. *)
Definition showZ (z : Z) : string := NilZero.string_of_int (Z.to_int z).

(** The [error] property of a vendor error: the parsed response body. *)
Record ErrorBody := mkErrorBody {
  body_message : option string;
  body_type : option string
}.

(** An error object as the provider layer reads it: the vendor SDK sets
    [status], the classified errors of this repository set [statusCode]. *)
Record JsError := mkJsError {
  message : option string;
  type : option string;
  status : option Z;
  statusCode : option Z;
  error : option ErrorBody
}.

(** [new Error(msg)]: a message and nothing else. *)
Definition newError (msg : string) : JsError :=
  mkJsError (Some msg) None None None None.

(** The [TypeError] the runtime raises when a property of [undefined] is
    read. *)
Definition typeErrorReading (prop : string) : JsError :=
  newError ("Cannot read properties of undefined (reading '" +:+ prop +:+ "')").

(** Outcome of awaiting a promise. [Rejected None] is a rejection with
    [undefined]. *)
Inductive Completion (E T : Type) : Type :=
| Fulfilled (value : T)
| Rejected (reason : E).
Arguments Fulfilled {E T} value.
Arguments Rejected {E T} reason.

Inductive LogLevel := Info | ErrorLevel | Warn | Debug.

(** What a run does besides returning. *)
Inductive Event :=
| EvLog (level : LogLevel) (msg : string)
| EvSleep (ms : Q)
| EvOperation
| EvCreate
| EvRetrieve
| EvNewClient.

(** The trace without its log entries. *)
Fixpoint actions (tr : list Event) : list Event :=
  match tr with
  | [] => []
  | EvLog _ _ :: rest => actions rest
  | ev :: rest => ev :: actions rest
  end.

End Js.
Import Js.

(* ===================================================================== *)
(** * OpenAIErrors: the typed error taxonomy and the classifier *)
(* ===================================================================== *)

Module OpenAIErrors.

(** The [name] of an error class. *)
Inductive ErrorName :=
| NameOpenAIError
| NameOpenAIAuthenticationError
| NameOpenAIRateLimitError
| NameOpenAIQuotaError
| NameOpenAINotFoundError
| NameOpenAIValidationError
| NameOpenAITimeoutError
| NameOpenAIServerError
| NameOpenAIConfigurationError.

Record OpenAIError := mkOpenAIError {
  err_name : ErrorName;
  err_message : string;
  err_type : string;
  err_statusCode : Z;
  err_originalError : option JsError
}.

Definition newOpenAIError (msg ty : string) (sc : Z) (orig : option JsError) :=
  mkOpenAIError NameOpenAIError msg ty sc orig.

Definition OpenAIAuthenticationError (msg : string) (orig : option JsError) :=
  mkOpenAIError NameOpenAIAuthenticationError msg "authentication_error" 401 orig.

Definition OpenAIRateLimitError (msg : string) (orig : option JsError) :=
  mkOpenAIError NameOpenAIRateLimitError msg "rate_limit_error" 429 orig.

Definition OpenAIQuotaError (msg : string) (orig : option JsError) :=
  mkOpenAIError NameOpenAIQuotaError msg "insufficient_quota" 429 orig.

Definition OpenAINotFoundError (msg : string) (orig : option JsError) :=
  mkOpenAIError NameOpenAINotFoundError msg "not_found_error" 404 orig.

Definition OpenAIValidationError (msg : string) (orig : option JsError) :=
  mkOpenAIError NameOpenAIValidationError msg "invalid_request_error" 400 orig.

Definition OpenAITimeoutError (msg : string) (orig : option JsError) :=
  mkOpenAIError NameOpenAITimeoutError msg "timeout_error" 408 orig.

Definition OpenAIServerError (msg : string) (orig : option JsError) :=
  mkOpenAIError NameOpenAIServerError msg "server_error" 500 orig.

Definition OpenAIConfigurationError (msg : string) (orig : option JsError) :=
  mkOpenAIError NameOpenAIConfigurationError msg "configuration_error" 500 orig.

(** A classified error read back as a plain error object (what a later
    [catch] sees of it). *)
Definition asJsError (e : OpenAIError) : JsError :=
  mkJsError (Some (err_message e)) (Some (err_type e)) None
            (Some (err_statusCode e)) None.

(** [error?.message || error?.error?.message || "Error desconocido de OpenAI"] *)
Definition errorMessage (err : option JsError) : string :=
  orStrDefault
    (orStr (chain err message) (chain (chain err error) body_message))
    "Error desconocido de OpenAI".

(** [error?.type || error?.error?.type] *)
Definition errorType (err : option JsError) : option string :=
  orStr (chain err type) (chain (chain err error) body_type).

(** [error?.status || error?.statusCode] *)
Definition rawStatus (err : option JsError) : option Z :=
  orNum (chain err status) (chain err statusCode).

(** The [switch (errorType)] of the classifier; [None] is the [default]
    branch. *)
Definition mapByType (ty : option string) (msg : string)
    (err : option JsError) : option OpenAIError :=
  match ty with
  | Some t =>
      if String.eqb t "invalid_api_key" || String.eqb t "authentication_error"
      then Some (OpenAIAuthenticationError msg err)
      else if String.eqb t "rate_limit_exceeded"
      then Some (OpenAIRateLimitError msg err)
      else if String.eqb t "insufficient_quota"
      then Some (OpenAIQuotaError msg err)
      else if String.eqb t "invalid_request_error"
      then Some (OpenAIValidationError msg err)
      else if String.eqb t "not_found"
      then Some (OpenAINotFoundError msg err)
      else None
  | None => None
  end.

(** The [if (statusCode) { ... }] block; [None] when it falls through. *)
Definition mapByStatus (sc : option Z) (msg : string)
    (err : option JsError) : option OpenAIError :=
  match sc with
  | Some s =>
      if s =? 0 then None
      else if s =? 401 then Some (OpenAIAuthenticationError msg err)
      else if s =? 404 then Some (OpenAINotFoundError msg err)
      else if s =? 429 then Some (OpenAIRateLimitError msg err)
      else if s =? 408 then Some (OpenAITimeoutError msg err)
      else if (400 <=? s) && (s <? 500)
      then Some (OpenAIValidationError msg err)
      else if 500 <=? s then Some (OpenAIServerError msg err)
      else None
  | None => None
  end.

Definition mapOpenAIError (err : option JsError) : OpenAIError :=
  let msg := errorMessage err in
  let ty := errorType err in
  let sc := rawStatus err in
  match mapByType ty msg err with
  | Some e => e
  | None =>
      match mapByStatus sc msg err with
      | Some e => e
      | None =>
          newOpenAIError msg (orStrDefault ty "unknown_error")
                         (orNumDefault sc 500) err
      end
  end.

(** The tags the [switch] of the classifier has a [case] for. *)
Definition recognizedTag (ty : option string) : bool :=
  match ty with
  | Some t =>
      String.eqb t "invalid_api_key" || String.eqb t "authentication_error"
      || String.eqb t "rate_limit_exceeded" || String.eqb t "insufficient_quota"
      || String.eqb t "invalid_request_error" || String.eqb t "not_found"
  | None => false
  end.

(** What a classified error is told apart by: its class and its status. *)
Definition classifiedAs (r : OpenAIError) (name : ErrorName) (sc : Z) : Prop :=
  err_name r = name /\ err_statusCode r = sc.

(** A plain [Error] after classification: the generic class with type
    [unknown_error] and status 500, the message kept. *)
Definition unclassified (msg : string) : OpenAIError :=
  newOpenAIError msg "unknown_error" 500 (Some (newError msg)).

(** The shapes a classified error can have. *)
Inductive Classified (err : option JsError) : OpenAIError -> Prop :=
| cl_auth : Classified err (OpenAIAuthenticationError (errorMessage err) err)
| cl_rate : Classified err (OpenAIRateLimitError (errorMessage err) err)
| cl_quota : Classified err (OpenAIQuotaError (errorMessage err) err)
| cl_validation : Classified err (OpenAIValidationError (errorMessage err) err)
| cl_notFound : Classified err (OpenAINotFoundError (errorMessage err) err)
| cl_timeout : Classified err (OpenAITimeoutError (errorMessage err) err)
| cl_server : Classified err (OpenAIServerError (errorMessage err) err)
| cl_generic ty sc :
    recognizedTag (Some ty) = false -> ty <> EmptyString ->
    sc <> 0 -> sc < 400 \/ sc = 500 ->
    (sc < 400 -> rawStatus err = Some sc) ->
    Classified err (newOpenAIError (errorMessage err) ty sc err).

End OpenAIErrors.

(* ===================================================================== *)
(** * AIProvider: the retry executor and the metadata sanitiser *)
(* ===================================================================== *)

Module AIProvider.

(** ** retryOperation *)

(** The guard [error.statusCode && error.statusCode < 500]. *)
Definition isClientError (e : JsError) : bool :=
  match statusCode e with
  | Some c => negb (c =? 0) && (c <? 500)
  | None => false
  end.

Definition retryMessage (attempt maxRetries : Z) : string :=
  "Reintentando operación (" +:+ showZ attempt +:+ "/" +:+ showZ maxRetries +:+ ")".

Section Retry.
Context {T : Type}.

(** [operation k] is what the [k]-th invocation of [operation()] settles
    to; the loop invokes it once per attempt, so [k] is the attempt
    number. *)
Variable operation : Z -> Completion (option JsError) T.
Variables maxRetries delayMs : Z.

(** The [for (attempt = 1; attempt <= maxRetries; attempt++)] loop: [n] is
    the number of iterations left, [attempt] the loop variable and
    [lastError] the variable of that name.  With no iteration left the
    statement after the loop, [throw lastError], runs. *)
Fixpoint retryLoop (n : nat) (attempt : Z) (lastError : option JsError)
    : Completion (option JsError) T * list Event :=
  match n with
  | O => (Rejected lastError, [])
  | S n' =>
      match operation attempt with
      | Fulfilled v => (Fulfilled v, [EvOperation])
      | Rejected None =>
          (* reading [error.statusCode] of [undefined] raises *)
          (Rejected (Some (typeErrorReading "statusCode")), [EvOperation])
      | Rejected (Some e) =>
          if isClientError e then (Rejected (Some e), [EvOperation])
          else
            let pause :=
              if attempt <? maxRetries
              then [EvLog Warn (retryMessage attempt maxRetries);
                    EvSleep (inject_Z (delayMs * attempt))]
              else [] in
            let '(r, tr) := retryLoop n' (attempt + 1) (Some e) in
            (r, EvOperation :: pause ++ tr)
      end
  end.

Definition retryOperation : Completion (option JsError) T * list Event :=
  retryLoop (Z.to_nat maxRetries) 1 None.
End Retry.

(** Observations on a trace. *)
Definition isOperation (ev : Event) : bool :=
  match ev with EvOperation => true | _ => false end.

Definition invocations (tr : list Event) : nat :=
  length (List.filter isOperation tr).

(** An invocation that fails with a server-side status: the error carries a
    status, as [status] or as [statusCode], and none below 500. *)
Definition failsWithServerError {T : Type}
    (outcome : Completion (option JsError) T) : Prop :=
  exists e, outcome = Rejected (Some e) /\
    (is_Some (status e) \/ is_Some (statusCode e)) /\
    (forall c, status e = Some c -> 500 <= c) /\
    (forall c, statusCode e = Some c -> 500 <= c).

Fixpoint sleeps (tr : list Event) : list Q :=
  match tr with
  | [] => []
  | EvSleep ms :: rest => ms :: sleeps rest
  | _ :: rest => sleeps rest
  end.

(** ** sanitizeMetadata *)

(** The values a metadata record holds: JSON data and [undefined].  The
    sanitiser only asks a number for its [typeof], and [JSON.stringify] only
    for its text, so the type of numbers is left open; objects list their own
    properties in enumeration order. *)
#[warnings="-register-all"]
Inductive JsValue (Number : Type) :=
| JsUndefined
| JsNull
| JsBoolean (b : bool)
| JsNumber (n : Number)
| JsString (s : string)
| JsArray (items : list (JsValue Number))
| JsObject (props : list (string * JsValue Number)).
Arguments JsUndefined {Number}.
Arguments JsNull {Number}.
Arguments JsBoolean {Number} b.
Arguments JsNumber {Number} n.
Arguments JsString {Number} s.
Arguments JsArray {Number} items.
Arguments JsObject {Number} props.

Definition dquote : string := String (ascii_of_nat 34) EmptyString.

Definition hexDigit (n : nat) : string :=
  String.substring n 1 "0123456789abcdef".

(** One code unit of [QuoteJSONString]. *)
Definition quoteChar (c : ascii) : string :=
  let n := nat_of_ascii c in
  if Nat.eqb n 8 then "\b"
  else if Nat.eqb n 9 then "\t"
  else if Nat.eqb n 10 then "\n"
  else if Nat.eqb n 12 then "\f"
  else if Nat.eqb n 13 then "\r"
  else if Nat.eqb n 34 then "\" +:+ dquote
  else if Nat.eqb n 92 then "\\"
  else if Nat.ltb n 32
  then "\u00" +:+ hexDigit (Nat.div n 16) +:+ hexDigit (Nat.modulo n 16)
  else String c EmptyString.

Fixpoint quoteBody (s : string) : string :=
  match s with
  | EmptyString => EmptyString
  | String c rest => quoteChar c +:+ quoteBody rest
  end.

Definition quoteJSONString (s : string) : string :=
  dquote +:+ quoteBody s +:+ dquote.

Fixpoint joinComma (parts : list string) : string :=
  match parts with
  | [] => EmptyString
  | [p] => p
  | p :: rest => p +:+ "," +:+ joinComma rest
  end.

(** The key of the accessor that every object literal inherits from
    [Object.prototype]. *)
Definition protoKey : string := "__proto__".

Section Sanitize.
Context {Number : Type}.

(** The text [JSON.stringify] gives a number: its decimal or exponent form
    when it is finite, [null] otherwise. *)
Variable numberToJSON : Number -> string.

(** [JSON.stringify(value)] without replacer or indentation; [None] is the
    [undefined] it returns for [undefined]. *)
Fixpoint JSON_stringify (v : JsValue Number) : option string :=
  match v with
  | JsUndefined => None
  | JsNull => Some "null"
  | JsBoolean b => Some (if b then "true" else "false")
  | JsNumber n => Some (numberToJSON n)
  | JsString s => Some (quoteJSONString s)
  | JsArray items =>
      Some ("[" +:+
            joinComma (List.map (fun x =>
                         match JSON_stringify x with
                         | Some s => s
                         | None => "null"
                         end) items)
            +:+ "]")
  | JsObject props =>
      Some ("{" +:+
            joinComma (List.flat_map (fun kv =>
                         match kv with
                         | (k, x) =>
                             match JSON_stringify x with
                             | Some s => [quoteJSONString k +:+ ":" +:+ s]
                             | None => []
                             end
                         end) props)
            +:+ "}")
  end.

(** [typeof value] is ["string"], ["number"] or ["boolean"]. *)
Definition isScalar (v : JsValue Number) : bool :=
  match v with
  | JsString _ | JsNumber _ | JsBoolean _ => true
  | _ => false
  end.

(** [value === null || value === undefined] *)
Definition isNullish (v : JsValue Number) : bool :=
  match v with
  | JsNull | JsUndefined => true
  | _ => false
  end.

(** Creating or overwriting the own property [key] of an object given by
    its own properties in enumeration order: an existing property keeps its
    place, a new one goes last. *)
Fixpoint defineProp (key : string) (value : JsValue Number)
    (obj : list (string * JsValue Number)) : list (string * JsValue Number) :=
  match obj with
  | [] => [(key, value)]
  | (k, v) :: rest =>
      if String.eqb key k then (key, value) :: rest
      else (k, v) :: defineProp key value rest
  end.

(** [obj[key] = value] on an object created by the literal [{}] and only
    assigned to since.  The assignment creates or overwrites an own
    property, except under the key [__proto__]: there it reaches the
    accessor inherited from [Object.prototype], which creates no own
    property (it replaces the prototype when the value is an object or
    [null] and does nothing otherwise). *)
Definition setProp (key : string) (value : JsValue Number)
    (obj : list (string * JsValue Number)) : list (string * JsValue Number) :=
  if String.eqb key protoKey then obj else defineProp key value obj.

(** The own property [key] of [obj]. *)
Fixpoint getProp (key : string) (obj : list (string * JsValue Number))
    : option (JsValue Number) :=
  match obj with
  | [] => None
  | (k, v) :: rest => if String.eqb key k then Some v else getProp key rest
  end.

(** The [for (const [key, value] of Object.entries(metadata))] loop. *)
Fixpoint sanitizeLoop (entries sanitized : list (string * JsValue Number))
    : list (string * JsValue Number) :=
  match entries with
  | [] => sanitized
  | (key, value) :: rest =>
      if isScalar value then sanitizeLoop rest (setProp key value sanitized)
      else if isNullish value then sanitizeLoop rest sanitized
      else
        let json :=
          match JSON_stringify value with
          | Some s => JsString s
          | None => JsUndefined
          end in
        sanitizeLoop rest (setProp key json sanitized)
  end.

(** [metadata] is [None] for [undefined], otherwise the own enumerable
    properties of the record in the order of [Object.entries]. *)
Definition sanitizeMetadata (metadata : option (list (string * JsValue Number)))
    : option (list (string * JsValue Number)) :=
  match metadata with
  | None => None
  | Some entries =>
      let sanitized := sanitizeLoop entries [] in
      if Nat.ltb 0 (length sanitized) then Some sanitized else None
  end.

(** What the loop assigns for a value: [None] when it skips the entry. *)
Definition sanitized_value (value : JsValue Number) : option (JsValue Number) :=
  if isScalar value then Some value
  else if isNullish value then None
  else match JSON_stringify value with
       | Some s => Some (JsString s)
       | None => Some JsUndefined
       end.

(** The properties of a possibly absent record. *)
Definition entriesOf (o : option (list (string * JsValue Number)))
    : list (string * JsValue Number) :=
  match o with
  | Some props => props
  | None => []
  end.

(** The keys of a record, in enumeration order. *)
Definition keysOf (obj : list (string * JsValue Number)) : list string :=
  List.map fst obj.

(** The entry is stored by the loop: its value is neither [null] nor
    [undefined] and its key is not [__proto__]. *)
Definition isStored (kv : string * JsValue Number) : bool :=
  negb (isNullish (snd kv)) && negb (String.eqb (fst kv) protoKey).

(** The entries that the loop stores, in their order and with the values it
    assigns, for a record whose keys are distinct. *)
Definition survivors (entries : list (string * JsValue Number))
    : list (string * JsValue Number) :=
  List.flat_map
    (fun kv => if String.eqb (fst kv) protoKey then []
               else match sanitized_value (snd kv) with
                    | Some v => [(fst kv, v)]
                    | None => []
                    end) entries.

(** The record without its entries under the key [__proto__]. *)
Definition withoutProto (entries : list (string * JsValue Number))
    : list (string * JsValue Number) :=
  List.filter (fun kv => negb (String.eqb (fst kv) protoKey)) entries.
End Sanitize.


(** ** handleError *)

(** The error [handleError] throws: what its readers see of it, and the
    error it wraps. *)
Record HandledError := mkHandledError {
  thrown : JsError;
  originalError : option JsError
}.

(** [handleError(operation, error)] never returns: the pair is the error it
    throws and what it logs before. *)
Definition handleError (providerName operation : string) (err : option JsError)
    : HandledError * list Event :=
  let msg :=
    orStrDefault (orStr (chain err message) (chain (chain err error) body_message))
                 "Error desconocido" in
  let ty :=
    orStrDefault (orStr (chain err type) (chain (chain err error) body_type))
                 "unknown_error" in
  let sc := orNumDefault (orNum (chain err status) (chain err statusCode)) 500 in
  (mkHandledError
     (mkJsError (Some (providerName +:+ ": " +:+ msg)) (Some ty) None (Some sc) None)
     err,
   [EvLog ErrorLevel ("Error en " +:+ operation)]).

(** The sum of the waits of a trace, in milliseconds. *)
Fixpoint totalWait (tr : list Event) : Q :=
  match tr with
  | [] => 0
  | EvSleep ms :: rest => ms + totalWait rest
  | _ :: rest => totalWait rest
  end.

(** An invocation that fails with an error the guard of the retry loop lets
    pass. *)
Definition failsRetryable {T : Type}
    (outcome : Completion (option JsError) T) : Prop :=
  exists e, outcome = Rejected (Some e) /\ isClientError e = false.

(** The waits after the attempts [attempt], [attempt + 1], ... *)
Definition backoff (delayMs attempt count : Z) : list Q :=
  List.map (fun k => inject_Z (delayMs * k)) (seqZ attempt count).

(** [k] further invocations, each after its wait, the first of them being
    attempt [attempt + 1]. *)
Fixpoint retriesFrom (delayMs : Z) (k : nat) (attempt : Z) : list Event :=
  match k with
  | O => []
  | S k' =>
      EvSleep (inject_Z (delayMs * attempt)) :: EvOperation
        :: retriesFrom delayMs k' (attempt + 1)
  end.

(** [k] invocations: the first at once, invocation [j + 1] after a wait of
    [delayMs * j], and nothing after the last. *)
Definition retrySchedule (delayMs : Z) (k : nat) : list Event :=
  match k with
  | O => []
  | S k' => EvOperation :: retriesFrom delayMs k' 1
  end.

End AIProvider.

(* ===================================================================== *)
(** * OpenAIConfig: validation, defaults and the masked credential *)
(* ===================================================================== *)

Module OpenAIConfig.
Import OpenAIErrors.

(** A property of an object literal: missing, or present and holding
    [undefined] ([Holds None]) or a value. *)
Inductive Property (A : Type) :=
| Absent
| Holds (value : option A).
Arguments Absent {A}.
Arguments Holds {A} value.

(** [obj.property] *)
Definition read {A : Type} (p : Property A) : option A :=
  match p with
  | Absent => None
  | Holds value => value
  end.

(** [Partial<OpenAIProviderConfig>]: every property may be missing, and a
    property that is there may hold [undefined]. *)
Record PartialConfig := mkPartialConfig {
  p_apiKey : Property string;
  p_organization : Property string;
  p_baseURL : Property string;
  p_timeout : Property Z;
  p_maxRetries : Property Z;
  p_defaultHeaders : Property (list (string * string))
}.

(** The config a manager holds, by what reading each property gives; [None]
    is [undefined]. *)
Record OpenAIProviderConfig := mkConfig {
  apiKey : string;
  organization : option string;
  baseURL : option string;
  timeout : option Z;
  maxRetries : option Z;
  defaultHeaders : option (list (string * string))
}.

Definition DEFAULT_OPENAI_CONFIG : PartialConfig :=
  mkPartialConfig Absent Absent
                  (Holds (Some "https://api.openai.com/v1"))
                  (Holds (Some 60000))
                  (Holds (Some 3))
                  (Holds (Some [("OpenAI-Beta", "assistants=v2")])).

(** A property of [{...under, ...over}]: the property of [over] when it has
    one, whatever it holds, otherwise the property of [under]. *)
Definition spread {A : Type} (under over : Property A) : Property A :=
  match over with
  | Holds value => Holds value
  | Absent => under
  end.

(** What reading a property of [{...under, ...over}] gives, when reading
    it in [under] gives [dflt]. *)
Definition givenOr {A : Type} (dflt : option A) (over : Property A) : option A :=
  read (spread (Holds dflt) over).

(** [{...a, ...b}] on partial configs. *)
Definition spreadPartial (a b : PartialConfig) : PartialConfig :=
  mkPartialConfig
    (spread (p_apiKey a) (p_apiKey b))
    (spread (p_organization a) (p_organization b))
    (spread (p_baseURL a) (p_baseURL b))
    (spread (p_timeout a) (p_timeout b))
    (spread (p_maxRetries a) (p_maxRetries b))
    (spread (p_defaultHeaders a) (p_defaultHeaders b)).

(** [apiKey.startsWith("sk-") && apiKey.length > 20] *)
Definition isValidApiKey (apiKey : string) : bool :=
  String.prefix "sk-" apiKey && Nat.ltb 20 (String.length apiKey).

(** The merged object [{...DEFAULT_OPENAI_CONFIG, ...config, apiKey: key}]
    read as an [OpenAIProviderConfig]. *)
Definition mergeWithDefaults (config : PartialConfig) (key : string)
    : OpenAIProviderConfig :=
  let merged := spreadPartial DEFAULT_OPENAI_CONFIG config in
  mkConfig key
           (read (p_organization merged))
           (read (p_baseURL merged))
           (read (p_timeout merged))
           (read (p_maxRetries merged))
           (read (p_defaultHeaders merged)).

Definition validateAndMergeConfig (config : PartialConfig)
    : Completion OpenAIError OpenAIProviderConfig :=
  if negb (truthyStr (read (p_apiKey config))) then
    Rejected (OpenAIConfigurationError "API Key de OpenAI es requerida" None)
  else
    match read (p_apiKey config) with
    | None =>
        Rejected (OpenAIConfigurationError "API Key de OpenAI es requerida" None)
    | Some key =>
        if negb (isValidApiKey key) then
          Rejected (OpenAIConfigurationError
            "Formato de API Key de OpenAI inválido. Debe empezar con 'sk-'" None)
        else Fulfilled (mergeWithDefaults config key)
    end.

(** [s.substring(start, end)]: both indices are clamped to the length and
    swapped when out of order. *)
Definition jsSubstring (start end_ : nat) (s : string) : string :=
  let len := String.length s in
  let a := Nat.min start len in
  let b := Nat.min end_ len in
  String.substring (Nat.min a b) (Nat.max a b - Nat.min a b) s.

(** [s.substring(start)] *)
Definition jsSubstringFrom (start : nat) (s : string) : string :=
  jsSubstring start (String.length s) s.

Definition getMaskedApiKey (key : string) : string :=
  if Nat.leb (String.length key) 10 then "***"
  else jsSubstring 0 7 key +:+ "..." +:+ jsSubstringFrom (String.length key - 4) key.

(** [needle] appears somewhere inside [hay]. *)
Definition occursIn (needle hay : string) : Prop :=
  exists pre post, hay = pre +:+ needle +:+ post.


(** ** The other accessors of the config manager *)

(** [validate()] *)
Definition validate (c : OpenAIProviderConfig) : bool :=
  negb (String.eqb (apiKey c) EmptyString)
  && truthyStr (baseURL c)
  && truthyNum (timeout c)
  && match maxRetries c with Some _ => true | None => false end.

(** The config of a manager as the object it is.  It was built by
    [validateAndMergeConfig], so it has the properties of the defaults and
    [apiKey] as its own, each holding what reading it gives; for
    [organization], which has no default, a missing property and one holding
    [undefined] are read alike by every later merge. *)
Definition toPartial (c : OpenAIProviderConfig) : PartialConfig :=
  mkPartialConfig (Holds (Some (apiKey c))) (Holds (organization c))
                  (Holds (baseURL c)) (Holds (timeout c))
                  (Holds (maxRetries c)) (Holds (defaultHeaders c)).

(** [updateConfig(updates)] on a manager whose [config] is [c]: how the call
    ends and the [config] of the manager afterwards. *)
Definition updateConfig (c : OpenAIProviderConfig) (updates : PartialConfig)
    : Completion OpenAIError unit * OpenAIProviderConfig :=
  match validateAndMergeConfig (spreadPartial (toPartial c) updates) with
  | Fulfilled c' => (Fulfilled tt, c')
  | Rejected e => (Rejected e, c)
  end.

(** [headers[name] = value] on a record of strings in enumeration order. *)
Fixpoint setHeader (name value : string) (headers : list (string * string))
    : list (string * string) :=
  match headers with
  | [] => [(name, value)]
  | (n, v) :: rest =>
      if String.eqb name n then (name, value) :: rest
      else (n, v) :: setHeader name value rest
  end.

(** [headers[name]] *)
Fixpoint getHeader (name : string) (headers : list (string * string))
    : option string :=
  match headers with
  | [] => None
  | (n, v) :: rest => if String.eqb name n then Some v else getHeader name rest
  end.

(** [{...headers, ...more}] *)
Fixpoint spreadHeaders (headers more : list (string * string))
    : list (string * string) :=
  match more with
  | [] => headers
  | (n, v) :: rest => spreadHeaders (setHeader n v headers) rest
  end.

(** [getHeaders()] *)
Definition getHeaders (c : OpenAIProviderConfig) : list (string * string) :=
  let headers :=
    spreadHeaders
      [("Authorization", "Bearer " +:+ apiKey c);
       ("Content-Type", "application/json")]
      (match defaultHeaders c with Some h => h | None => [] end) in
  if truthyStr (organization c)
  then match organization c with
       | Some org => setHeader "OpenAI-Organization" org headers
       | None => headers
       end
  else headers.

(** The argument [{}] of [updateConfig]. *)
Definition noUpdates : PartialConfig :=
  mkPartialConfig Absent Absent Absent Absent Absent Absent.

(** The partial config the factory passes to [getInstance]: the object
    literal with the two properties [apiKey] and [organization]. *)
Definition factoryConfig (key : string) (org : option string) : PartialConfig :=
  mkPartialConfig (Holds (Some key)) (Holds org) Absent Absent Absent Absent.

End OpenAIConfig.

(* ===================================================================== *)
(** * OpenAIProvider: the singleton adapter and the attach polling *)
(* ===================================================================== *)

Module OpenAIProvider.
Import OpenAIErrors OpenAIConfig.

(** ** The singleton *)

(** A provider object. [ref] is the identity of the object: two values with
    the same [ref] are the same instance. *)
Record Instance := mkInstance {
  ref : nat;
  providerName : string;
  isInitialized : bool;
  config : OpenAIProviderConfig
}.

(** The static fields of the two classes, [OpenAIProvider.instance] and
    [ProviderFactory.providers], and the next free object identity. *)
Record Statics := mkStatics {
  instance : option Instance;
  providers : gmap string Instance;
  nextRef : nat
}.

Definition isReady (p : Instance) : bool := isInitialized p.

(** [new OpenAIProvider(config)]: the constructor builds the config manager,
    which validates, then [initializeSync] creates the client and sets
    [isInitialized]; a failure is logged and thrown again. *)
Definition construct (cfg : PartialConfig) (st : Statics)
    : Completion OpenAIError Instance * Statics * list Event :=
  match validateAndMergeConfig cfg with
  | Rejected e =>
      (Rejected e, st, [EvLog ErrorLevel "Error al configurar OpenAI Provider"])
  | Fulfilled merged =>
      (Fulfilled (mkInstance (nextRef st) "OpenAI" true merged),
       mkStatics (instance st) (providers st) (S (nextRef st)),
       [EvNewClient; EvLog Info "OpenAI Provider inicializado correctamente"])
  end.

Definition getInstance (cfg : option PartialConfig) (st : Statics)
    : Completion OpenAIError Instance * Statics * list Event :=
  match instance st with
  | Some inst => (Fulfilled inst, st, [])
  | None =>
      match cfg with
      | None =>
          (Rejected (OpenAIConfigurationError
             "Se requiere configuración para inicializar OpenAI Provider" None),
           st, [])
      | Some c =>
          match construct c st with
          | (Fulfilled inst, st', evs) =>
              (Fulfilled inst,
               mkStatics (Some inst) (providers st') (nextRef st'), evs)
          | (Rejected e, st', evs) => (Rejected e, st', evs)
          end
      end
  end.

Definition resetInstance (st : Statics) : Statics :=
  mkStatics None (providers st) (nextRef st).

(** ** Attach polling *)

Inductive FileStatus := in_progress | completed | cancelled | failed.

Definition statusName (s : FileStatus) : string :=
  match s with
  | in_progress => "in_progress"
  | completed => "completed"
  | cancelled => "cancelled"
  | failed => "failed"
  end.

(** The vendor's record of a file in a vector store; [last_error] is
    [last_error?.message]. *)
Record VectorStoreFile := mkVectorStoreFile {
  id : string;
  file_status : FileStatus;
  created_at : Z;
  last_error : option string
}.

Record FileInfo := mkFileInfo {
  info_id : string;
  info_name : string;
  info_size : Z;
  info_status : string;
  info_createdAt : Z
}.

Definition toFileInfo (f : VectorStoreFile) : FileInfo :=
  mkFileInfo (id f) EmptyString 0 (statusName (file_status f)) (created_at f).

(** [Math.min(delayMs * 1.5, 5000)]; [Qred] only normalises the fraction. *)
Definition nextDelay (delayMs : Q) : Q := Qred (Qmin (delayMs * (3 # 2)) 5000).

(** [error.status === 404] *)
Definition is404 (e : JsError) : bool :=
  match status e with
  | Some s => s =? 404
  | None => false
  end.

Definition failedMessage (f : VectorStoreFile) : string :=
  "Archivo falló al procesarse: " +:+ orStrDefault (last_error f) "Unknown error".

Definition cancelledMessage : string := "Procesamiento del archivo fue cancelado".

Definition timeoutMessage (maxAttempts : Z) : string :=
  "Timeout: Archivo no completó procesamiento después de "
  +:+ showZ maxAttempts +:+ " intentos".

(** How one pass through the loop body ends. *)
Inductive BodyOutcome :=
| Return (file : VectorStoreFile)
| Throw (err : option JsError)
| Next.

Section Polling.
(** [retrieve k] is what the [k]-th call of
    [client.vectorStores.files.retrieve] settles to; the loop calls it
    once per attempt. *)
Variable retrieve : Z -> Completion (option JsError) VectorStoreFile.
Variable maxAttempts : Z.

(** The [try] block. *)
Definition tryBlock (attempt : Z) : BodyOutcome * list Event :=
  match retrieve attempt with
  | Rejected err => (Throw err, [EvRetrieve])
  | Fulfilled file =>
      let tr := [EvRetrieve; EvLog Debug "Polling estado del archivo"] in
      match file_status file with
      | completed =>
          (Return file, tr ++ [EvLog Info "Archivo procesado exitosamente"])
      | failed => (Throw (Some (newError (failedMessage file))), tr)
      | cancelled => (Throw (Some (newError cancelledMessage)), tr)
      | in_progress => (Next, tr)
      end
  end.

(** The [catch] block. *)
Definition catchBlock (attempt : Z) (err : option JsError)
    : BodyOutcome * list Event :=
  match err with
  | None => (Throw (Some (typeErrorReading "status")), [])
  | Some e =>
      if is404 e && (attempt <? maxAttempts)
      then (Next, [EvLog Warn "Archivo no encontrado aún, reintentando..."])
      else (Throw err, [])
  end.

Definition loopBody (attempt : Z) : BodyOutcome * list Event :=
  match tryBlock attempt with
  | (Throw err, tr) =>
      let '(out, tr') := catchBlock attempt err in (out, tr ++ tr')
  | other => other
  end.

(** The [for (attempt = 1; attempt <= maxAttempts; attempt++)] loop with
    [n] iterations left; after the loop the timeout error is thrown. *)
Fixpoint waitLoop (n : nat) (attempt : Z) (delayMs : Q)
    : Completion (option JsError) VectorStoreFile * list Event :=
  match n with
  | O => (Rejected (Some (newError (timeoutMessage maxAttempts))), [])
  | S n' =>
      let wait := if 1 <? attempt then [EvSleep delayMs] else [] in
      let delayMs' := if 1 <? attempt then nextDelay delayMs else delayMs in
      match loopBody attempt with
      | (Return file, tr) => (Fulfilled file, wait ++ tr)
      | (Throw err, tr) => (Rejected err, wait ++ tr)
      | (Next, tr) =>
          let '(r, rest) := waitLoop n' (attempt + 1) delayMs' in
          (r, wait ++ tr ++ rest)
      end
  end.

Definition waitForVectorStoreFile (initialDelayMs : Q)
    : Completion (option JsError) VectorStoreFile * list Event :=
  waitLoop (Z.to_nat maxAttempts) 1 initialDelayMs.
End Polling.

Section Attach.
(** What [client.vectorStores.files.create] settles to, and the polls
    after it. *)
Variable create : Completion (option JsError) VectorStoreFile.
Variable retrieve : Z -> Completion (option JsError) VectorStoreFile.

Definition attachFailedLog : Event :=
  EvLog ErrorLevel "Error al adjuntar archivo al vector store".

(** The provider is an initialised instance, so [getClient] returns. The
    poll runs with its default budget, 60 attempts from 1000 ms. *)
Definition createAndPollVectorStoreFile
    : Completion OpenAIError FileInfo * list Event :=
  let start := [EvLog Info "Adjuntando file_id al vector store"; EvCreate] in
  match create with
  | Rejected err => (Rejected (mapOpenAIError err), start ++ [attachFailedLog])
  | Fulfilled file =>
      let attached := start ++ [EvLog Info "Archivo adjuntado al vector store"] in
      match file_status file with
      | in_progress =>
          let waiting :=
            attached ++ [EvLog Info "Archivo en procesamiento, esperando..."] in
          match waitForVectorStoreFile retrieve 60 1000 with
          | (Fulfilled processed, tr) =>
              (Fulfilled (toFileInfo processed), waiting ++ tr)
          | (Rejected err, tr) =>
              (Rejected (mapOpenAIError err), waiting ++ tr ++ [attachFailedLog])
          end
      | _ => (Fulfilled (toFileInfo file), attached)
      end
  end.

Definition addFileToVectorStore := createAndPollVectorStoreFile.
End Attach.

(** Observations on a polling trace. *)
Definition isRetrieve (ev : Event) : bool :=
  match ev with EvRetrieve => true | _ => false end.

Definition polls (tr : list Event) : nat :=
  length (List.filter isRetrieve tr).

(** The wait before poll [k + 2]. *)
Fixpoint delayAfter (k : nat) : Q :=
  match k with
  | O => 1000
  | S k' => nextDelay (delayAfter k')
  end.

(** [k] further polls, each after its wait, the first wait being
    [delayAfter i]. *)
Fixpoint pollsFrom (k i : nat) : list Event :=
  match k with
  | O => []
  | S k' => EvSleep (delayAfter i) :: EvRetrieve :: pollsFrom k' (S i)
  end.

(** [k] polls: the first at once, the others after their waits. *)
Definition schedule (k : nat) : list Event :=
  match k with
  | O => []
  | S k' => EvRetrieve :: pollsFrom k' 0
  end.

(** A poll that finds the file still in progress. *)
Definition stillInProgress (o : Completion (option JsError) VectorStoreFile)
    : Prop :=
  exists file, o = Fulfilled file /\ file_status file = in_progress.

(** A poll that finds the file in progress or fails with status 404. *)
Definition notYetReady (o : Completion (option JsError) VectorStoreFile)
    : Prop :=
  stillInProgress o \/ exists e, o = Rejected (Some e) /\ is404 e = true.


(** What [getConfigInfo()] returns for an instance (an instance always has
    its config manager). *)
Record ConfigInfo := mkConfigInfo {
  ci_provider : string;
  ci_apiKey : string;
  ci_organization : string;
  ci_baseURL : option string;
  ci_timeout : option Z;
  ci_maxRetries : option Z;
  ci_isReady : bool
}.

Definition getConfigInfo (p : Instance) : ConfigInfo :=
  mkConfigInfo (providerName p)
               (getMaskedApiKey (apiKey (config p)))
               (orStrDefault (organization (config p)) "default")
               (baseURL (config p))
               (timeout (config p))
               (maxRetries (config p))
               (isReady p).

(** [hasInstance()] *)
Definition hasInstance (st : Statics) : bool :=
  match instance st with Some _ => true | None => false end.

End OpenAIProvider.

(* ===================================================================== *)
(** * ProviderFactory: the registry of providers *)
(* ===================================================================== *)

Module ProviderFactory.
Import OpenAIErrors OpenAIConfig OpenAIProvider.

(** [AIProviderType.OPENAI]; at run time a provider type is a string. *)
Definition OPENAI : string := "openai".

(** [openaiConfig] of the environment module. *)
Record EnvConfig := mkEnvConfig {
  env_apiKey : option string;
  env_organization : option string
}.

Section Factory.
Variable openaiConfig : EnvConfig.

Definition createOpenAIProvider (st : Statics)
    : Completion OpenAIError (option Instance) * Statics * list Event :=
  if negb (truthyStr (env_apiKey openaiConfig)) then
    (Fulfilled None, st,
     [EvLog Warn
        "OpenAI API Key no configurada. El proveedor OpenAI no estará disponible."])
  else
    let cfg := mkPartialConfig (Holds (env_apiKey openaiConfig))
                 (Holds (env_organization openaiConfig))
                 Absent Absent Absent Absent in
    match getInstance (Some cfg) st with
    | (Fulfilled inst, st', evs) => (Fulfilled (Some inst), st', evs)
    | (Rejected _, st', evs) =>
        (Fulfilled None, st',
         evs ++ [EvLog ErrorLevel "Error al inicializar OpenAI Provider"])
    end.

Definition getProvider (type : string) (st : Statics)
    : Completion OpenAIError (option Instance) * Statics * list Event :=
  match providers st !! type with
  | Some p => (Fulfilled (Some p), st, [])
  | None =>
      if String.eqb type OPENAI then
        match createOpenAIProvider st with
        | (Fulfilled (Some p), st', evs) =>
            if isReady p then
              (Fulfilled (Some p),
               mkStatics (instance st') (<[type := p]> (providers st'))
                         (nextRef st'),
               evs ++ [EvLog Info ("Proveedor " +:+ type
                                   +:+ " creado y registrado exitosamente")])
            else (Fulfilled None, st', evs)
        | (Fulfilled None, st', evs) => (Fulfilled None, st', evs)
        | (Rejected _, st', evs) =>
            (Fulfilled None, st',
             evs ++ [EvLog ErrorLevel ("Error al crear proveedor " +:+ type)])
        end
      else
        (Fulfilled None, st,
         [EvLog ErrorLevel ("Tipo de proveedor no soportado: " +:+ type)])
  end.

Definition isProviderAvailable (type : string) (st : Statics)
    : bool * Statics * list Event :=
  match getProvider type st with
  | (Fulfilled (Some p), st', evs) => (isReady p, st', evs)
  | (_, st', evs) => (false, st', evs)
  end.

Definition resetAll (st : Statics) : Statics * list Event :=
  (resetInstance (mkStatics (instance st) ∅ (nextRef st)),
   [EvLog Info "Todos los proveedores han sido reseteados"]).

Definition getDefaultProvider (st : Statics)
    : Completion OpenAIError (option Instance) * Statics * list Event :=
  getProvider OPENAI st.

(** The loop of [getAvailableProviders] over the given provider types. *)
Fixpoint availableLoop (types : list string) (st : Statics)
    : list string * Statics * list Event :=
  match types with
  | [] => ([], st, [])
  | type :: rest =>
      let '(ok, st1, evs1) := isProviderAvailable type st in
      let '(available, st2, evs2) := availableLoop rest st1 in
      (if ok then type :: available else available, st2, evs1 ++ evs2)
  end.

(** [Object.values(AIProviderType)] has the one entry. *)
Definition getAvailableProviders (st : Statics)
    : list string * Statics * list Event :=
  availableLoop [OPENAI] st.

(** [getProvidersInfo()]: name and readiness per registered type. *)
Definition getProvidersInfo (st : Statics) : gmap string (string * bool) :=
  (fun p => (providerName p, isReady p)) <$> providers st.

Definition initial : Statics := mkStatics None ∅ 0.

(** The states the factory brings the process into. *)
Inductive reachable : Statics -> Prop :=
| reach_initial : reachable initial
| reach_getProvider type st :
    reachable st -> reachable (snd (fst (getProvider type st)))
| reach_resetAll st :
    reachable st -> reachable (fst (resetAll st)).
End Factory.

(** Neither static field holds a provider. *)
Definition pristine (st : Statics) : Prop :=
  instance st = None /\ providers st = ∅.

(** The mandatory credential is missing (absent or empty) or malformed. *)
Definition credentialUnusable (cfg : EnvConfig) : Prop :=
  truthyStr (env_apiKey cfg) = false \/
  exists key, env_apiKey cfg = Some key /\ isValidApiKey key = false.

Definition isLog (ev : Event) : Prop :=
  match ev with EvLog _ _ => True | _ => False end.


(** The credential is present and of the accepted shape. *)
Definition credentialUsable (cfg : EnvConfig) : Prop :=
  exists key, env_apiKey cfg = Some key /\ isValidApiKey key = true.

(** The registry and the singleton agree: a registered provider is
    registered under [OPENAI] and is the singleton, and the singleton is
    ready, is named OpenAI and has an identity below the next free one. *)
Definition consistent (st : Statics) : Prop :=
  (forall type p, providers st !! type = Some p ->
     type = OPENAI /\ instance st = Some p) /\
  (forall p, instance st = Some p ->
     isReady p = true /\ providerName p = "OpenAI" /\ (ref p < nextRef st)%nat).

End ProviderFactory.

(* ===================================================================== *)
(** * R2Provider: the object-storage adapter *)
(* ===================================================================== *)

Module R2Provider.

(** [r2Config] of the environment module. *)
Record R2Config := mkR2Config {
  bucket : string;
  endpoint : option string;
  accessKeyId : option string;
  secretAccessKey : option string;
  enabled : bool;
  bucketPublic : bool;
  publicBaseUrl : option string
}.

Definition slash : ascii := ascii_of_nat 47.

(** [s.replace(re, empty)] for the pattern of one or more slashes at the
    end of the text: the slashes at the end of [s] are removed. *)
Fixpoint stripTrailingSlashes (s : string) : string :=
  match s with
  | EmptyString => EmptyString
  | String c rest =>
      let rest' := stripTrailingSlashes rest in
      if Ascii.eqb c slash && String.eqb rest' EmptyString
      then EmptyString
      else String c rest'
  end.

(** The public link of an object: empty unless the bucket is public and a
    base address is configured. *)
Definition publicUrlOf (cfg : R2Config) (bucketName key : string) : string :=
  if bucketPublic cfg then
    let base :=
      stripTrailingSlashes
        (orStrDefault (orStr (publicBaseUrl cfg) (endpoint cfg)) EmptyString) in
    if negb (String.eqb base EmptyString)
    then base +:+ "/" +:+ bucketName +:+ "/" +:+ key
    else EmptyString
  else EmptyString.

Record PresignedPut := mkPresignedPut {
  uploadUrl : string;
  publicUrl : string;
  put_expiresIn : Z;
  put_key : string
}.

(** [getPresignedPutUrl]; [signed] is what [getSignedUrl] settles to, and
    [expiresInSeconds] is [None] when the caller leaves it out. *)
Definition getPresignedPutUrl (cfg : R2Config)
    (signed : Completion (option JsError) string)
    (bucketName key contentType : string) (expiresInSeconds : option Z)
    : Completion (option JsError) PresignedPut :=
  let expires := match expiresInSeconds with Some n => n | None => 300 end in
  match signed with
  | Rejected err => Rejected err
  | Fulfilled url =>
      Fulfilled (mkPresignedPut url (publicUrlOf cfg bucketName key) expires key)
  end.

(** [s] ends with a slash. *)
Fixpoint endsWithSlash (s : string) : bool :=
  match s with
  | EmptyString => false
  | String c EmptyString => Ascii.eqb c slash
  | String _ rest => endsWithSlash rest
  end.

(** The text of [n] slashes. *)
Fixpoint slashes (n : nat) : string :=
  match n with
  | O => EmptyString
  | S n' => String slash (slashes n')
  end.

End R2Provider.

(* ===================================================================== *)
(** * Concrete inputs used in the examples below *)
(* ===================================================================== *)

Import OpenAIErrors AIProvider OpenAIConfig OpenAIProvider ProviderFactory.

(** A raw error with the rate-limit tag and status 401. *)
Definition taggedRateLimit401 : JsError :=
  mkJsError (Some "slow down") (Some "rate_limit_exceeded") (Some 401) None None.

(** The vendor's HTTP 401 error: a status and no type tag. *)
Definition vendor401 : JsError :=
  mkJsError (Some "Incorrect API key provided") None (Some 401) None None.


(** The vendor's HTTP 500 error. *)
Definition vendor500 : JsError :=
  mkJsError (Some "The server had an error") None (Some 500) None None.

(** The vendor's HTTP 400 error: the SDK sets [status], not [statusCode]. *)
Definition vendor400 : JsError :=
  mkJsError (Some "Invalid value for 'name'") None (Some 400) None None.

(** An operation every invocation of which fails with the given error. *)
Definition alwaysFails (e : JsError) : Z -> Completion (option JsError) unit :=
  fun _ => Rejected (Some e).

(** The two numbers of the examples, 5 and 1, with the text
    [JSON.stringify] gives them. *)
Inductive ExampleNumber := num_5 | num_1.

Definition exampleNumberToJSON (n : ExampleNumber) : string :=
  match n with
  | num_5 => "5"
  | num_1 => "1"
  end.

(** The metadata record [{a: "x", b: 5, c: true, d: null, e: {f: 1}}]. *)
Definition exampleMetadata : list (string * JsValue ExampleNumber) :=
  [("a", JsString "x"); ("b", JsNumber num_5); ("c", JsBoolean true);
   ("d", JsNull); ("e", JsObject [("f", JsNumber num_1)])].

(** The text [{"f":1}]. *)
Definition exampleJson : string :=
  "{" +:+ dquote +:+ "f" +:+ dquote +:+ ":1}".

(** The record that [JSON.parse] builds from a request body with the two
    members [__proto__], holding the string x, and [a], holding the string
    y: [__proto__] is an own property of it. *)
Definition protoMetadata : list (string * JsValue ExampleNumber) :=
  [("__proto__", JsString "x"); ("a", JsString "y")].

(** A credential of the accepted shape. *)
Definition sampleKey : string := "sk-proj-0123456789abcdefghij".

(** The vendor's HTTP 404 error. *)
Definition vendor404 : JsError :=
  mkJsError (Some "No file found") None (Some 404) None None.

(** A file record with the given status. *)
Definition fileWith (st : FileStatus) : VectorStoreFile :=
  mkVectorStoreFile "file-1" st 1700000000 None.

(** Polls that see NotFound, then InProgress, then Completed. *)
Definition notFoundThenReady (k : Z) : Completion (option JsError) VectorStoreFile :=
  if k =? 1 then Rejected (Some vendor404)
  else if k =? 2 then Fulfilled (fileWith in_progress)
  else Fulfilled (fileWith completed).

(** Polls that always see InProgress. *)
Definition neverReady (k : Z) : Completion (option JsError) VectorStoreFile :=
  Fulfilled (fileWith in_progress).

(** A failed file with the vendor's reason, first seen at the second poll. *)
Definition failedFile : VectorStoreFile :=
  mkVectorStoreFile "file-1" failed 1700000000 (Some "unsupported_file").

Definition failsAtSecondPoll (k : Z) : Completion (option JsError) VectorStoreFile :=
  if k =? 1 then Fulfilled (fileWith in_progress) else Fulfilled failedFile.

(** An environment without a credential, one with a malformed credential and
    one with a credential of the accepted shape. *)
Definition envWithoutKey : EnvConfig := mkEnvConfig None None.

Definition envMalformedKey : EnvConfig := mkEnvConfig (Some "not-a-key") None.

Definition envValidKey : EnvConfig := mkEnvConfig (Some sampleKey) None.

(** A public bucket whose base address ends with two slashes, and a private
    one. *)
Definition r2Public : R2Provider.R2Config :=
  R2Provider.mkR2Config "agentik" (Some "https://account.r2.example")
    (Some "access") (Some "secret") true true (Some "https://cdn.example.org//").

Definition r2Private : R2Provider.R2Config :=
  R2Provider.mkR2Config "agentik" (Some "https://account.r2.example")
    (Some "access") (Some "secret") true false None.

(** The vendor's HTTP 500 error at the second poll, after one poll that found
    the file in progress. *)
Definition serverErrorAtSecondPoll (k : Z)
    : Completion (option JsError) VectorStoreFile :=
  if k =? 1 then Fulfilled (fileWith in_progress) else Rejected (Some vendor500).

(* ===================================================================== *)
(** * Properties of the classifier *)
(* ===================================================================== *)


Lemma mapByType_unrecognized ty msg err :
  recognizedTag ty = false -> mapByType ty msg err = None.
Proof.
  destruct ty as [t|]; [|reflexivity].
  unfold recognizedTag, mapByType.
  intros H.
  repeat (apply orb_false_iff in H; destruct H as [H ?]).
  repeat match goal with E : _ = false |- _ => rewrite E; clear E end.
  reflexivity.
Qed.

Lemma mapOpenAIError_by_type err e :
  mapByType (errorType err) (errorMessage err) err = Some e ->
  mapOpenAIError err = e.
Proof. unfold mapOpenAIError. intros ->. reflexivity. Qed.

Lemma mapOpenAIError_by_status err :
  recognizedTag (errorType err) = false ->
  mapOpenAIError err =
    match mapByStatus (rawStatus err) (errorMessage err) err with
    | Some e => e
    | None =>
        newOpenAIError (errorMessage err)
          (orStrDefault (errorType err) "unknown_error")
          (orNumDefault (rawStatus err) 500) err
    end.
Proof.
  intros H. unfold mapOpenAIError.
  rewrite (mapByType_unrecognized _ _ _ H). reflexivity.
Qed.

(** A truthy [error.status] is the status the classifier reads. *)
Lemma rawStatus_of_status err s :
  chain err status = Some s -> s <> 0 -> rawStatus err = Some s.
Proof.
  intros H Hs. unfold rawStatus, orNum. rewrite H. simpl.
  destruct (Z.eqb_spec s 0); [contradiction | reflexivity].
Qed.

Ltac status_cases s :=
  unfold mapByStatus;
  repeat match goal with
         | |- context [Z.eqb s ?c] => destruct (Z.eqb_spec s c); try lia
         | |- context [Z.leb ?a ?b] => destruct (Z.leb_spec a b); try lia
         | |- context [Z.ltb ?a ?b] => destruct (Z.ltb_spec a b); try lia
         end;
  simpl; try (split; reflexivity).

(** C1 (as amended). The classifier applies the ordered rule, first match
    wins: an authentication tag gives Authentication/401, the rate-limit tag
    RateLimit/429, the quota tag Quota/429, the malformed-request tag
    Validation/400, the missing-resource tag NotFound/404; with no
    recognised tag the status decides (401, 404, 429, 408, other 4xx, 500
    and above; a non-zero status below 400 is kept on a generic error); with
    neither a recognised tag nor a status the result is the generic error
    with status 500.  A raw error carrying status 401 is classified as
    Authentication when it carries no recognised tag or an authentication
    tag.  The raw error is always kept as the cause. *)
Theorem mapOpenAIError_ordered_rule (err : option JsError) :
  let r := mapOpenAIError err in
  let ty := errorType err in
  let sc := rawStatus err in
  (ty = Some "invalid_api_key" \/ ty = Some "authentication_error" ->
     classifiedAs r NameOpenAIAuthenticationError 401) /\
  (ty = Some "rate_limit_exceeded" ->
     classifiedAs r NameOpenAIRateLimitError 429) /\
  (ty = Some "insufficient_quota" ->
     classifiedAs r NameOpenAIQuotaError 429) /\
  (ty = Some "invalid_request_error" ->
     classifiedAs r NameOpenAIValidationError 400) /\
  (ty = Some "not_found" ->
     classifiedAs r NameOpenAINotFoundError 404) /\
  (recognizedTag ty = false -> forall s, sc = Some s ->
     (s = 401 -> classifiedAs r NameOpenAIAuthenticationError 401) /\
     (s = 404 -> classifiedAs r NameOpenAINotFoundError 404) /\
     (s = 429 -> classifiedAs r NameOpenAIRateLimitError 429) /\
     (s = 408 -> classifiedAs r NameOpenAITimeoutError 408) /\
     (400 <= s < 500 -> s <> 401 -> s <> 404 -> s <> 429 -> s <> 408 ->
        classifiedAs r NameOpenAIValidationError 400) /\
     (500 <= s -> classifiedAs r NameOpenAIServerError 500) /\
     (s < 400 -> s <> 0 -> classifiedAs r NameOpenAIError s)) /\
  (recognizedTag ty = false -> truthyNum sc = false ->
     classifiedAs r NameOpenAIError 500 /\
     err_type r = orStrDefault ty "unknown_error") /\
  (chain err status = Some 401 ->
     recognizedTag ty = false \/
     ty = Some "invalid_api_key" \/ ty = Some "authentication_error" ->
     err_name r = NameOpenAIAuthenticationError) /\
  err_originalError r = err.
Proof.
  intros r ty sc.
  assert (Htag : forall t e,
             ty = Some t ->
             mapByType (Some t) (errorMessage err) err = Some e -> r = e).
  { intros t e Ht He. apply mapOpenAIError_by_type.
    fold ty. rewrite Ht. exact He. }
  assert (Hauth : ty = Some "invalid_api_key" \/ ty = Some "authentication_error" ->
                  classifiedAs r NameOpenAIAuthenticationError 401).
  { intros [Ht|Ht]; rewrite (Htag _ _ Ht eq_refl); split; reflexivity. }
  assert (Hstat : recognizedTag ty = false -> forall s, sc = Some s -> s = 401 ->
                  classifiedAs r NameOpenAIAuthenticationError 401).
  { intros Hty s Hs ->. unfold r. rewrite (mapOpenAIError_by_status _ Hty).
    fold sc. rewrite Hs. split; reflexivity. }
  repeat split.
  - apply Hauth; assumption.
  - apply Hauth; assumption.
  - rewrite (Htag _ _ H eq_refl); reflexivity.
  - rewrite (Htag _ _ H eq_refl); reflexivity.
  - rewrite (Htag _ _ H eq_refl); reflexivity.
  - rewrite (Htag _ _ H eq_refl); reflexivity.
  - rewrite (Htag _ _ H eq_refl); reflexivity.
  - rewrite (Htag _ _ H eq_refl); reflexivity.
  - rewrite (Htag _ _ H eq_refl); reflexivity.
  - rewrite (Htag _ _ H eq_refl); reflexivity.
  - apply (Hstat H s H0 H1).
  - apply (Hstat H s H0 H1).
  - unfold r. rewrite (mapOpenAIError_by_status _ H). fold sc. rewrite H0, H1. reflexivity.
  - unfold r. rewrite (mapOpenAIError_by_status _ H). fold sc. rewrite H0, H1. reflexivity.
  - unfold r. rewrite (mapOpenAIError_by_status _ H). fold sc. rewrite H0, H1. reflexivity.
  - unfold r. rewrite (mapOpenAIError_by_status _ H). fold sc. rewrite H0, H1. reflexivity.
  - unfold r. rewrite (mapOpenAIError_by_status _ H). fold sc. rewrite H0, H1. reflexivity.
  - unfold r. rewrite (mapOpenAIError_by_status _ H). fold sc. rewrite H0, H1. reflexivity.
  - unfold r. rewrite (mapOpenAIError_by_status _ H). fold sc. rewrite H0.
    status_cases s.
  - unfold r. rewrite (mapOpenAIError_by_status _ H). fold sc. rewrite H0.
    status_cases s.
  - unfold r. rewrite (mapOpenAIError_by_status _ H). fold sc. rewrite H0.
    status_cases s.
  - unfold r. rewrite (mapOpenAIError_by_status _ H). fold sc. rewrite H0.
    status_cases s.
  - unfold r. rewrite (mapOpenAIError_by_status _ H). fold sc. rewrite H0.
    status_cases s.
  - unfold r. rewrite (mapOpenAIError_by_status _ H). fold sc. rewrite H0.
    status_cases s. unfold orNumDefault.
    destruct (Z.eqb_spec s 0); [lia | reflexivity].
  - unfold r. rewrite (mapOpenAIError_by_status _ H). fold sc.
    destruct sc as [s|]; simpl in *; [|reflexivity].
    apply negb_false_iff in H0. rewrite H0. reflexivity.
  - unfold r. rewrite (mapOpenAIError_by_status _ H). fold sc.
    destruct sc as [s|]; simpl in *; [|reflexivity].
    apply negb_false_iff in H0. rewrite H0. reflexivity.
  - unfold r. rewrite (mapOpenAIError_by_status _ H). fold sc.
    destruct sc as [s|]; simpl in *; [|reflexivity].
    apply negb_false_iff in H0. rewrite H0. reflexivity.
  - intros Hs [Hty | Hty].
    + apply (Hstat Hty 401); [|reflexivity].
      apply rawStatus_of_status; [assumption | lia].
    + apply Hauth; assumption.
  - unfold r, mapOpenAIError.
    destruct (mapByType _ _ _) as [e|] eqn:E1.
    + unfold mapByType in E1. destruct (errorType err) as [t|]; [|discriminate].
      repeat match type of E1 with
             | (if ?b then _ else _) = _ => destruct b
             end; inversion E1; reflexivity.
    + destruct (mapByStatus _ _ _) as [e|] eqn:E2; [|reflexivity].
      unfold mapByStatus in E2. destruct (rawStatus err) as [s|]; [|discriminate].
      repeat match type of E2 with
             | (if ?b then _ else _) = _ => destruct b
             end; inversion E2; reflexivity.
Qed.

(** C1 as stated fails: a raw error carrying status 401 together with a
    recognised tag of another kind is classified by the tag. *)
Lemma status_401_not_always_authentication :
  ~ (forall e : JsError,
       status e = Some 401 ->
       err_name (mapOpenAIError (Some e)) = NameOpenAIAuthenticationError).
Proof.
  intros H. specialize (H taggedRateLimit401 eq_refl). discriminate H.
Qed.

Lemma mapOpenAIError_ordered_rule_witness :
  chain (Some vendor401) status = Some 401 /\
  recognizedTag (errorType (Some vendor401)) = false /\
  err_name (mapOpenAIError (Some vendor401)) = NameOpenAIAuthenticationError.
Proof.
  split; [reflexivity | split; [reflexivity |]].
  destruct (mapOpenAIError_ordered_rule (Some vendor401))
    as (_ & _ & _ & _ & _ & _ & _ & H & _).
  exact (H eq_refl (or_introl eq_refl)).
Defined.

(* ===================================================================== *)
(** * Properties of the retry executor *)
(* ===================================================================== *)

Lemma isClientError_iff e :
  isClientError e = true <->
  exists c, statusCode e = Some c /\ c <> 0 /\ c < 500.
Proof.
  unfold isClientError. split.
  - destruct (statusCode e) as [c|]; [|discriminate].
    intros H. apply andb_true_iff in H as [H1 H2].
    exists c. split; [reflexivity|].
    apply negb_true_iff in H1. split; lia.
  - intros (c & -> & H1 & H2).
    apply andb_true_iff. split; [apply negb_true_iff|]; lia.
Qed.

Lemma serverError_not_client {T : Type} (o : Completion (option JsError) T) :
  failsWithServerError o ->
  exists e, o = Rejected (Some e) /\ isClientError e = false.
Proof.
  intros (e & -> & _ & _ & H). exists e. split; [reflexivity|].
  unfold isClientError. destruct (statusCode e) as [c|]; [|reflexivity].
  specialize (H c eq_refl). apply andb_false_iff. right. lia.
Qed.

Section RetryFacts.
Context {T : Type}.
Variable operation : Z -> Completion (option JsError) T.
Variables maxRetries delayMs : Z.

(** A first failure the guard lets through ends the run at once. *)
Lemma retryOperation_client_error_once e :
  1 <= maxRetries ->
  operation 1 = Rejected (Some e) ->
  isClientError e = true ->
  retryOperation operation maxRetries delayMs = (Rejected (Some e), [EvOperation]).
Proof.
  intros Hm Hop Hc. unfold retryOperation.
  destruct (Z.to_nat maxRetries) as [|n] eqn:En; [lia|].
  simpl. rewrite Hop, Hc. reflexivity.
Qed.

(** When every attempt fails with an error the guard does not stop, the
    loop runs all its iterations, waits [delayMs * attempt] after every
    attempt but the last, and ends with the error of the last attempt. *)
Lemma retryLoop_exhausts n : forall attempt lastError,
  (forall k, exists e, operation k = Rejected (Some e) /\ isClientError e = false) ->
  attempt + Z.of_nat n = maxRetries + 1 ->
  let run := retryLoop operation maxRetries delayMs n attempt lastError in
  fst run = match n with
            | O => Rejected lastError
            | S _ => operation maxRetries
            end /\
  invocations (snd run) = n /\
  sleeps (snd run) =
    List.map (fun k => inject_Z (delayMs * k)) (seqZ attempt (Z.of_nat n - 1)).
Proof.
  induction n as [|n IH]; intros attempt lastError Hall Hn.
  - simpl. repeat split; reflexivity.
  - destruct (Hall attempt) as (e & Hop & Hc).
    specialize (IH (attempt + 1) (Some e) Hall ltac:(lia)).
    cbn [retryLoop]. rewrite Hop, Hc.
    destruct (retryLoop operation maxRetries delayMs n (attempt + 1) (Some e))
      as [r tr] eqn:Erun.
    cbn [fst snd] in IH |- *. destruct IH as (Hr & Hi & Hs).
    destruct n as [|n'].
    + assert (attempt = maxRetries) by lia. subst attempt.
      rewrite Z.ltb_irrefl. simpl in Erun. inversion Erun; subst.
      rewrite Hop. repeat split; reflexivity.
    + assert (Hlt : (attempt <? maxRetries) = true) by (apply Z.ltb_lt; lia).
      rewrite Hlt. repeat split.
      * exact Hr.
      * unfold invocations in *. simpl. rewrite Hi. reflexivity.
      * cbn [sleeps app]. rewrite Hs.
        rewrite (seqZ_cons attempt) by lia.
        cbn [List.map]. do 3 f_equal; lia.
Qed.
End RetryFacts.

(** C2. With three attempts and a base delay of 1000 ms, an operation that
    always fails with a server-side status is invoked exactly three times,
    the executor waits 1000 ms before the second and 2000 ms before the
    third attempt, and the error of the last attempt is raised. *)
Theorem retryOperation_three_attempts_on_server_errors
    (T : Type) (operation : Z -> Completion (option JsError) T) :
  (forall k, failsWithServerError (operation k)) ->
  let run := retryOperation operation 3 1000 in
  invocations (snd run) = 3%nat /\
  actions (snd run) =
    [EvOperation; EvSleep 1000; EvOperation; EvSleep 2000; EvOperation] /\
  fst run = operation 3 /\
  exists e, operation 3 = Rejected (Some e).
Proof.
  intros Hall run.
  destruct (serverError_not_client _ (Hall 1)) as (e1 & H1 & C1).
  destruct (serverError_not_client _ (Hall 2)) as (e2 & H2 & C2).
  destruct (serverError_not_client _ (Hall 3)) as (e3 & H3 & C3).
  unfold run, retryOperation.
  change (Z.to_nat 3) with 3%nat.
  cbn [retryLoop]. rewrite H1, C1.
  change (1 + 1) with 2. rewrite H2, C2.
  change (2 + 1) with 3. rewrite H3, C3.
  repeat split. exists e3. reflexivity.
Qed.

Lemma retryOperation_three_attempts_on_server_errors_witness :
  (forall k, failsWithServerError (alwaysFails vendor500 k)) /\
  fst (retryOperation (alwaysFails vendor500) 3 1000) = Rejected (Some vendor500) /\
  sleeps (snd (retryOperation (alwaysFails vendor500) 3 1000)) = [1000%Q; 2000%Q].
Proof.
  assert (H : forall k, failsWithServerError (alwaysFails vendor500 k)).
  { intros k. exists vendor500. split; [reflexivity|].
    split; [left; eexists; reflexivity|].
    split; intros c Hc; inversion Hc. lia. }
  split; [exact H|].
  pose proof (retryOperation_three_attempts_on_server_errors unit _ H) as W.
  split; [apply W | reflexivity].
Defined.

(** C3, the code at the vendor's HTTP 400 error. The classifier gives it
    status 400, yet the executor, which reads [statusCode] only, invokes the
    operation three times and waits 1000 ms and 2000 ms before it raises
    the error. *)
Theorem retryOperation_retries_vendor_400 :
  err_statusCode (mapOpenAIError (Some vendor400)) = 400 /\
  fst (retryOperation (alwaysFails vendor400) 3 1000) = Rejected (Some vendor400) /\
  invocations (snd (retryOperation (alwaysFails vendor400) 3 1000)) = 3%nat /\
  actions (snd (retryOperation (alwaysFails vendor400) 3 1000)) =
    [EvOperation; EvSleep 1000; EvOperation; EvSleep 2000; EvOperation].
Proof. repeat split. Qed.

(** C10. With a retry count below 1 the loop body never runs: the operation
    is not invoked and the promise rejects with the initial value of
    [lastError], which is [undefined]. *)
Theorem retryOperation_no_attempts_rejects_undefined
    (T : Type) (operation : Z -> Completion (option JsError) T)
    (maxRetries delayMs : Z) :
  maxRetries < 1 ->
  retryOperation operation maxRetries delayMs = (Rejected None, []).
Proof.
  intros H. unfold retryOperation.
  replace (Z.to_nat maxRetries) with O by lia. reflexivity.
Qed.

Lemma retryOperation_no_attempts_rejects_undefined_witness :
  0 < 1 /\
  retryOperation (alwaysFails vendor500) 0 1000 = (Rejected None, []).
Proof.
  split; [lia|].
  apply (retryOperation_no_attempts_rejects_undefined unit
           (alwaysFails vendor500) 0 1000).
  lia.
Defined.

(* ===================================================================== *)
(** * Properties of the metadata sanitiser *)
(* ===================================================================== *)

Section SanitizeFacts.
Context {Number : Type}.
Variable numberToJSON : Number -> string.
Implicit Types obj entries sanitized metadata : list (string * JsValue Number).
Implicit Types value : JsValue Number.

Lemma setProp_proto value obj : setProp protoKey value obj = obj.
Proof. reflexivity. Qed.

Lemma setProp_ordinary key value obj :
  key <> protoKey -> setProp key value obj = defineProp key value obj.
Proof.
  intros Hne. unfold setProp. apply String.eqb_neq in Hne. rewrite Hne.
  reflexivity.
Qed.

Lemma getProp_defineProp_eq key value obj :
  getProp key (defineProp key value obj) = Some value.
Proof.
  induction obj as [|[k v] rest IH]; simpl.
  - rewrite String.eqb_refl. reflexivity.
  - destruct (String.eqb_spec key k) as [->|Hne]; simpl.
    + rewrite String.eqb_refl. reflexivity.
    + apply String.eqb_neq in Hne. rewrite Hne. exact IH.
Qed.

Lemma getProp_defineProp_ne key key' value obj :
  key <> key' -> getProp key (defineProp key' value obj) = getProp key obj.
Proof.
  intros Hne. induction obj as [|[k v] rest IH]; simpl.
  - apply String.eqb_neq in Hne. rewrite Hne. reflexivity.
  - destruct (String.eqb_spec key' k) as [->|Hk]; simpl.
    + apply String.eqb_neq in Hne. rewrite Hne. reflexivity.
    + destruct (String.eqb key k); [reflexivity | exact IH].
Qed.

(** An assignment under an ordinary key is read back. *)
Lemma getProp_setProp_eq key value obj :
  key <> protoKey -> getProp key (setProp key value obj) = Some value.
Proof.
  intros Hne. rewrite setProp_ordinary by exact Hne.
  apply getProp_defineProp_eq.
Qed.

Lemma getProp_setProp_ne key key' value obj :
  key <> key' -> getProp key (setProp key' value obj) = getProp key obj.
Proof.
  intros Hne. unfold setProp. destruct (String.eqb key' protoKey);
    [reflexivity | apply getProp_defineProp_ne; exact Hne].
Qed.

(** An object or an array always has a JSON text. *)
Lemma JSON_stringify_compound value :
  isScalar value = false -> isNullish value = false ->
  exists json, JSON_stringify numberToJSON value = Some json.
Proof.
  destruct value; simpl; intros; try discriminate; eexists; reflexivity.
Qed.

(** The value stored for an entry that is not skipped is a scalar. *)
Lemma sanitized_value_scalar value v :
  sanitized_value numberToJSON value = Some v -> isScalar v = true.
Proof.
  unfold sanitized_value. destruct (isScalar value) eqn:Hs.
  - intros H. inversion H; subst. exact Hs.
  - destruct (isNullish value) eqn:Hn; [discriminate|].
    destruct (JSON_stringify_compound value Hs Hn) as [json ->].
    intros H. inversion H. reflexivity.
Qed.

(** One step of the loop in terms of [sanitized_value]. *)
Lemma sanitizeLoop_cons key value rest sanitized :
  sanitizeLoop numberToJSON ((key, value) :: rest) sanitized =
    sanitizeLoop numberToJSON rest
      match sanitized_value numberToJSON value with
      | Some v => setProp key v sanitized
      | None => sanitized
      end.
Proof.
  unfold sanitized_value. cbn [sanitizeLoop].
  destruct (isScalar value); [reflexivity|].
  destruct (isNullish value); [reflexivity|].
  destruct (JSON_stringify numberToJSON value); reflexivity.
Qed.

(** The loop leaves alone every key that is not among the entries. *)
Lemma sanitizeLoop_other_key key entries : forall sanitized,
  ~ In key (keysOf entries) ->
  getProp key (sanitizeLoop numberToJSON entries sanitized) = getProp key sanitized.
Proof.
  induction entries as [|[k v] rest IH]; intros sanitized Hnot; [reflexivity|].
  simpl in Hnot. assert (Hk : key <> k) by (intros ->; tauto).
  assert (Hrest : ~ In key (keysOf rest)) by tauto.
  rewrite sanitizeLoop_cons, (IH _ Hrest).
  destruct (sanitized_value numberToJSON v); [|reflexivity].
  apply getProp_setProp_ne. exact Hk.
Qed.

(** The loop never creates the own property [__proto__]. *)
Lemma sanitizeLoop_proto entries : forall sanitized,
  getProp protoKey (sanitizeLoop numberToJSON entries sanitized) =
    getProp protoKey sanitized.
Proof.
  induction entries as [|[k v] rest IH]; intros sanitized; [reflexivity|].
  rewrite sanitizeLoop_cons, IH.
  destruct (sanitized_value numberToJSON v); [|reflexivity].
  destruct (String.eqb_spec k protoKey) as [->|Hne].
  - rewrite setProp_proto. reflexivity.
  - apply getProp_setProp_ne. congruence.
Qed.

Lemma sanitizeLoop_entry key value entries : forall sanitized,
  key <> protoKey ->
  List.NoDup (keysOf entries) ->
  In (key, value) entries ->
  getProp key (sanitizeLoop numberToJSON entries sanitized) =
    match sanitized_value numberToJSON value with
    | Some v => Some v
    | None => getProp key sanitized
    end.
Proof.
  induction entries as [|[k v] rest IH]; intros sanitized Hproto Hnd Hin;
    [destruct Hin|].
  simpl in Hnd. apply List.NoDup_cons_iff in Hnd as [Hk Hnd].
  rewrite sanitizeLoop_cons.
  destruct Hin as [Heq|Hin].
  - inversion Heq; subst k v.
    rewrite (sanitizeLoop_other_key _ _ _ Hk).
    destruct (sanitized_value numberToJSON value); [|reflexivity].
    apply getProp_setProp_eq. exact Hproto.
  - assert (Hne : key <> k).
    { intros ->. apply Hk. apply (List.in_map fst) in Hin. exact Hin. }
    rewrite (IH _ Hproto Hnd Hin).
    destruct (sanitized_value numberToJSON value); [reflexivity|].
    destruct (sanitized_value numberToJSON v); [|reflexivity].
    apply getProp_setProp_ne. exact Hne.
Qed.

Lemma entriesOf_sanitizeMetadata metadata :
  entriesOf (sanitizeMetadata numberToJSON (Some metadata)) =
    sanitizeLoop numberToJSON metadata [].
Proof.
  unfold sanitizeMetadata.
  destruct (sanitizeLoop numberToJSON metadata []) as [|p rest]; reflexivity.
Qed.

(** Entries under the key [__proto__] make no difference to the loop. *)
Lemma sanitizeLoop_withoutProto entries : forall sanitized,
  sanitizeLoop numberToJSON entries sanitized =
    sanitizeLoop numberToJSON (withoutProto entries) sanitized.
Proof.
  induction entries as [|[k v] rest IH]; intros sanitized; [reflexivity|].
  unfold withoutProto. cbn [List.filter fst]. fold (withoutProto rest).
  destruct (String.eqb_spec k protoKey) as [->|Hne]; cbn [negb].
  - rewrite sanitizeLoop_cons, <- IH.
    destruct (sanitized_value numberToJSON v); reflexivity.
  - rewrite !sanitizeLoop_cons. apply IH.
Qed.

Lemma defineProp_fresh key value obj :
  ~ In key (keysOf obj) -> defineProp key value obj = obj ++ [(key, value)].
Proof.
  induction obj as [|[k v] rest IH]; intros Hnot; [reflexivity|].
  simpl in Hnot. simpl.
  destruct (String.eqb_spec key k) as [->|Hne]; [tauto|].
  rewrite IH by tauto. reflexivity.
Qed.

Lemma defineProp_keys key value obj :
  In key (keysOf obj) -> keysOf (defineProp key value obj) = keysOf obj.
Proof.
  induction obj as [|[k v] rest IH]; intros Hin; [destruct Hin|].
  simpl. destruct (String.eqb_spec key k) as [->|Hne]; [reflexivity|].
  simpl. f_equal. apply IH. simpl in Hin.
  destruct Hin as [Heq|Hin]; [congruence | exact Hin].
Qed.

Lemma setProp_fresh key value obj :
  key <> protoKey -> ~ In key (keysOf obj) ->
  setProp key value obj = obj ++ [(key, value)].
Proof.
  intros Hne Hnot. rewrite setProp_ordinary by exact Hne.
  apply defineProp_fresh. exact Hnot.
Qed.

Lemma setProp_NoDup key value obj :
  List.NoDup (keysOf obj) -> List.NoDup (keysOf (setProp key value obj)).
Proof.
  intros Hnd. unfold setProp. destruct (String.eqb key protoKey); [exact Hnd|].
  destruct (List.in_dec String.string_dec key (keysOf obj)) as [Hin|Hnot].
  - rewrite defineProp_keys by exact Hin. exact Hnd.
  - rewrite defineProp_fresh by exact Hnot. unfold keysOf.
    rewrite List.map_app. simpl.
    apply List.NoDup_app; [exact Hnd | repeat constructor; intros [] |].
    intros x Hx [<-|[]]. apply Hnot. exact Hx.
Qed.

Lemma setProp_scalar key value obj :
  isScalar value = true ->
  List.Forall (fun kv => isScalar (snd kv) = true) obj ->
  List.Forall (fun kv => isScalar (snd kv) = true) (setProp key value obj).
Proof.
  intros Hv Hobj. unfold setProp.
  destruct (String.eqb key protoKey); [exact Hobj|].
  induction Hobj as [|[k v] rest Hkv Hrest IH]; simpl.
  - repeat constructor. exact Hv.
  - destruct (String.eqb key k); constructor; assumption.
Qed.

Lemma setProp_nonempty key value obj :
  key <> protoKey -> setProp key value obj <> [].
Proof.
  intros Hne. rewrite setProp_ordinary by exact Hne.
  destruct obj as [|[k v] rest]; simpl; [|destruct (String.eqb key k)];
    discriminate.
Qed.

(** No assignment creates the own property [__proto__]. *)
Lemma setProp_no_proto key value obj :
  ~ In protoKey (keysOf obj) -> ~ In protoKey (keysOf (setProp key value obj)).
Proof.
  intros Hnot. unfold setProp.
  destruct (String.eqb_spec key protoKey) as [->|Hne]; [exact Hnot|].
  destruct (List.in_dec String.string_dec key (keysOf obj)) as [Hin|Hfresh].
  - rewrite defineProp_keys by exact Hin. exact Hnot.
  - rewrite defineProp_fresh by exact Hfresh. unfold keysOf.
    rewrite List.map_app, List.in_app_iff. simpl.
    intros [H | [H | []]]; [exact (Hnot H) | congruence].
Qed.

Lemma sanitizeLoop_invariant entries : forall sanitized,
  List.NoDup (keysOf sanitized) ->
  List.Forall (fun kv => isScalar (snd kv) = true) sanitized ->
  ~ In protoKey (keysOf sanitized) ->
  List.NoDup (keysOf (sanitizeLoop numberToJSON entries sanitized)) /\
  List.Forall (fun kv => isScalar (snd kv) = true)
              (sanitizeLoop numberToJSON entries sanitized) /\
  ~ In protoKey (keysOf (sanitizeLoop numberToJSON entries sanitized)).
Proof.
  induction entries as [|[k v] rest IH]; intros sanitized Hnd Hsc Hpr;
    [repeat split; assumption|].
  rewrite sanitizeLoop_cons.
  destruct (sanitized_value numberToJSON v) as [v'|] eqn:Hv;
    [|apply IH; assumption].
  apply IH.
  - apply setProp_NoDup. exact Hnd.
  - apply setProp_scalar; [|exact Hsc]. apply (sanitized_value_scalar v). exact Hv.
  - apply setProp_no_proto. exact Hpr.
Qed.

Lemma sanitizeMetadata_result (metadata : option (list (string * JsValue Number)))
    result :
  sanitizeMetadata numberToJSON metadata = Some result ->
  result <> [] /\
  List.NoDup (keysOf result) /\
  List.Forall (fun kv => isScalar (snd kv) = true) result /\
  ~ In protoKey (keysOf result).
Proof.
  unfold sanitizeMetadata. destruct metadata as [entries|]; [|discriminate].
  destruct (sanitizeLoop_invariant entries []) as (Hnd & Hsc & Hpr);
    [constructor | constructor | intros [] |].
  destruct (sanitizeLoop numberToJSON entries []) as [|kv rest]; [discriminate|].
  simpl. intros H. inversion H; subst. split; [discriminate|].
  repeat split; assumption.
Qed.

Lemma sanitizeLoop_append entries : forall sanitized,
  List.NoDup (keysOf entries) ->
  (forall k, In k (keysOf entries) -> ~ In k (keysOf sanitized)) ->
  sanitizeLoop numberToJSON entries sanitized =
    sanitized ++ survivors numberToJSON entries.
Proof.
  induction entries as [|[k v] rest IH]; intros sanitized Hnd Hdis.
  - simpl. rewrite app_nil_r. reflexivity.
  - simpl in Hnd. apply List.NoDup_cons_iff in Hnd as [Hk Hnd].
    rewrite sanitizeLoop_cons. unfold survivors. cbn [List.flat_map fst snd].
    fold (survivors numberToJSON rest).
    assert (Hrest : forall k', In k' (keysOf rest) -> ~ In k' (keysOf sanitized)).
    { intros k' Hin. apply Hdis. right. exact Hin. }
    destruct (String.eqb_spec k protoKey) as [->|Hne].
    + replace (match sanitized_value numberToJSON v with
               | Some v0 => setProp protoKey v0 sanitized
               | None => sanitized
               end) with sanitized
        by (destruct (sanitized_value numberToJSON v); reflexivity).
      rewrite IH by assumption. reflexivity.
    + destruct (sanitized_value numberToJSON v) as [v'|].
      * rewrite setProp_fresh by (exact Hne || (apply Hdis; left; reflexivity)).
        rewrite IH; [rewrite <- app_assoc; reflexivity | exact Hnd |].
        intros k' Hin. unfold keysOf. rewrite List.map_app, List.in_app_iff.
        intros [Hacc | [Heq | []]].
        -- apply (Hrest k'); assumption.
        -- simpl in Heq. subst k'. apply Hk. exact Hin.
      * rewrite IH by assumption. reflexivity.
Qed.


Lemma sanitizeLoop_empty_iff entries : forall sanitized,
  sanitizeLoop numberToJSON entries sanitized = [] <->
  sanitized = [] /\
  List.Forall (fun kv => isNullish (snd kv) = true \/ fst kv = protoKey) entries.
Proof.
  induction entries as [|[k v] rest IH]; intros sanitized.
  - simpl. split; [intros ->; split; [reflexivity | constructor] | tauto].
  - rewrite sanitizeLoop_cons, IH.
    destruct (String.eqb_spec k protoKey) as [->|Hne].
    + replace (match sanitized_value numberToJSON v with
               | Some v0 => setProp protoKey v0 sanitized
               | None => sanitized
               end) with sanitized
        by (destruct (sanitized_value numberToJSON v); reflexivity).
      split.
      * intros [H1 H2]. split; [exact H1|]. constructor; [right; reflexivity | exact H2].
      * intros [H1 H2]. inversion H2; subst. split; [reflexivity | assumption].
    + destruct (sanitized_value numberToJSON v) as [v'|] eqn:Hv.
      * split.
        -- intros [H _]. exfalso. exact (setProp_nonempty _ _ _ Hne H).
        -- intros [_ H]. inversion H as [|? ? [Hn|Hp] _]; subst; simpl in *;
             [|contradiction].
           unfold sanitized_value in Hv. rewrite Hn in Hv.
           destruct v; discriminate.
      * split.
        -- intros [H1 H2]. split; [exact H1|]. constructor; [|exact H2].
           left. simpl. unfold sanitized_value in Hv.
           destruct (isScalar v); [discriminate|].
           destruct (isNullish v); [reflexivity|].
           destruct (JSON_stringify numberToJSON v); discriminate.
        -- intros [H1 H2]. inversion H2; subst. split; [reflexivity | assumption].
Qed.



(** X9. The sanitiser returns [undefined] exactly when it is given
    [undefined] or a record each entry of which holds [null] or [undefined]
    or has the key [__proto__] (the empty record among them); it never
    returns an empty record. *)
Theorem sanitizeMetadata_undefined_iff
    (metadata : option (list (string * JsValue Number))) :
  (sanitizeMetadata numberToJSON metadata = None <->
   match metadata with
   | None => True
   | Some entries =>
       List.Forall (fun kv => isNullish (snd kv) = true \/ fst kv = protoKey)
                   entries
   end) /\
  sanitizeMetadata numberToJSON metadata <> Some [].
Proof.
  split.
  - destruct metadata as [entries|]; [|split; reflexivity].
    unfold sanitizeMetadata.
    pose proof (sanitizeLoop_empty_iff entries []) as H.
    destruct (sanitizeLoop numberToJSON entries []) as [|kv rest]; simpl.
    + split; [intros _; apply H; reflexivity | reflexivity].
    + split; [discriminate|]. intros Hall.
      assert (E : kv :: rest = []) by (apply H; split; [reflexivity | exact Hall]).
      discriminate E.
  - intros H. apply sanitizeMetadata_result in H as (Hne & _). congruence.
Qed.

(** X10. For a record with distinct keys the sanitised record is the list of
    the entries that are stored, in the order of the input, each with its
    value kept (scalars) or replaced by its JSON text (objects and arrays);
    the entries that are not stored are those holding [null] or [undefined]
    and the one under the key [__proto__]. *)
Theorem sanitizeMetadata_survivors (metadata : list (string * JsValue Number)) :
  List.NoDup (keysOf metadata) ->
  entriesOf (sanitizeMetadata numberToJSON (Some metadata)) =
    survivors numberToJSON metadata /\
  keysOf (entriesOf (sanitizeMetadata numberToJSON (Some metadata))) =
    keysOf (List.filter isStored metadata) /\
  (forall key value, In (key, value) (survivors numberToJSON metadata) <->
     key <> protoKey /\
     exists original, In (key, original) metadata /\
       sanitized_value numberToJSON original = Some value).
Proof.
  intros Hnd. rewrite entriesOf_sanitizeMetadata.
  rewrite sanitizeLoop_append by (exact Hnd || (intros k _ [])).
  split; [reflexivity|]. simpl. clear Hnd. split.
  - induction metadata as [|[k v] rest IH]; [reflexivity|].
    unfold survivors. cbn [List.flat_map List.filter fst snd].
    fold (survivors numberToJSON rest).
    unfold keysOf in *. rewrite List.map_app, IH. unfold isStored, sanitized_value.
    cbn [fst snd].
    destruct (String.eqb k protoKey); [rewrite andb_false_r; reflexivity|].
    destruct v; reflexivity.
  - intros key value. unfold survivors. rewrite List.in_flat_map. split.
    + intros [[k v] [Hin Hkv]]. cbn [fst snd] in Hkv.
      destruct (String.eqb_spec k protoKey) as [->|Hne]; [destruct Hkv|].
      destruct (sanitized_value numberToJSON v) as [v'|] eqn:Hv; [|destruct Hkv].
      destruct Hkv as [Heq|[]]. inversion Heq; subst.
      split; [exact Hne|]. exists v. split; assumption.
    + intros [Hne [original [Hin Hv]]]. exists (key, original).
      split; [exact Hin|]. cbn [fst snd].
      apply String.eqb_neq in Hne. rewrite Hne, Hv. left. reflexivity.
Qed.

(** X27. In the sanitised record of a record with distinct keys, every
    string, number or boolean entry under a key other than [__proto__] is
    kept unchanged under its key, every [null] or [undefined] entry is
    dropped, every other entry (object or array) under a key other than
    [__proto__] holds the JSON text of its value, the own property
    [__proto__] is never there, and no other key appears. *)
Theorem sanitizeMetadata_entries (metadata : list (string * JsValue Number)) :
  List.NoDup (keysOf metadata) ->
  let result := entriesOf (sanitizeMetadata numberToJSON (Some metadata)) in
  (forall key value, In (key, value) metadata -> key <> protoKey ->
     (isScalar value = true -> getProp key result = Some value) /\
     (isNullish value = true -> getProp key result = None) /\
     (isScalar value = false -> isNullish value = false ->
        exists json, JSON_stringify numberToJSON value = Some json /\
                     getProp key result = Some (JsString json))) /\
  (forall key value, In (key, value) metadata ->
     isNullish value = true -> getProp key result = None) /\
  getProp protoKey result = None /\
  (forall key, ~ In key (keysOf metadata) -> getProp key result = None).
Proof.
  intros Hnd result. unfold result. rewrite entriesOf_sanitizeMetadata.
  assert (Hnull : forall key value, In (key, value) metadata ->
            isNullish value = true ->
            getProp key (sanitizeLoop numberToJSON metadata []) = None).
  { intros key value Hin Hn.
    destruct (String.eqb_spec key protoKey) as [->|Hne];
      [apply (sanitizeLoop_proto metadata [])|].
    rewrite (sanitizeLoop_entry key value metadata [] Hne Hnd Hin).
    unfold sanitized_value. destruct value; try discriminate Hn; reflexivity. }
  split; [|split; [exact Hnull | split]].
  - intros key value Hin Hproto.
    pose proof (sanitizeLoop_entry key value metadata [] Hproto Hnd Hin) as H.
    unfold sanitized_value in H. split; [|split].
    + intros Hs. rewrite Hs in H. exact H.
    + apply Hnull. exact Hin.
    + intros Hs Hn. rewrite Hs, Hn in H.
      destruct (JSON_stringify_compound value Hs Hn) as [json Hj].
      exists json. rewrite Hj in H. split; [exact Hj | exact H].
  - apply (sanitizeLoop_proto metadata []).
  - intros key Hnot. apply (sanitizeLoop_other_key key metadata [] Hnot).
Qed.

End SanitizeFacts.

(** C4. The specification has every string, number or boolean entry pass
    through under its key.  The sanitiser loses such an entry when its key
    is [__proto__]: the record with [__proto__] = x and a = y comes back as
    the record with a = y alone, the record with the one entry
    [__proto__] = x comes back as [undefined], and in general the entries
    under the key [__proto__] make no difference to the result. *)
Theorem sanitizeMetadata_loses_proto_entry :
  isScalar (JsString (Number := ExampleNumber) "x") = true /\
  sanitizeMetadata exampleNumberToJSON (Some protoMetadata) =
    Some [("a", JsString "y")] /\
  getProp "__proto__"
    (entriesOf (sanitizeMetadata exampleNumberToJSON (Some protoMetadata))) = None /\
  sanitizeMetadata exampleNumberToJSON (Some [("__proto__", JsString "x")]) = None /\
  (forall (Number : Type) (numberToJSON : Number -> string)
          (metadata : list (string * JsValue Number)),
     sanitizeMetadata numberToJSON (Some metadata) =
       sanitizeMetadata numberToJSON (Some (withoutProto metadata))).
Proof.
  split; [reflexivity|]. split; [reflexivity|]. split; [reflexivity|].
  split; [reflexivity|].
  intros Number numberToJSON metadata. unfold sanitizeMetadata.
  rewrite <- sanitizeLoop_withoutProto. reflexivity.
Qed.


Lemma sanitizeMetadata_survivors_witness :
  List.NoDup (keysOf ((protoKey, JsString "x") :: exampleMetadata)) /\
  keysOf (entriesOf (sanitizeMetadata exampleNumberToJSON
                       (Some ((protoKey, JsString "x") :: exampleMetadata)))) =
    ["a"; "b"; "c"; "e"].
Proof.
  assert (Hnd : List.NoDup (keysOf ((protoKey, JsString "x") :: exampleMetadata))).
  { simpl. repeat constructor; simpl; intuition discriminate. }
  split; [exact Hnd|].
  destruct (sanitizeMetadata_survivors exampleNumberToJSON _ Hnd) as (_ & H & _).
  rewrite H. reflexivity.
Defined.

Lemma sanitizeMetadata_entries_witness :
  List.NoDup (keysOf exampleMetadata) /\
  sanitizeMetadata exampleNumberToJSON (Some exampleMetadata) =
    Some [("a", JsString "x"); ("b", JsNumber num_5); ("c", JsBoolean true);
          ("e", JsString exampleJson)] /\
  getProp "e" (entriesOf (sanitizeMetadata exampleNumberToJSON
                            (Some exampleMetadata))) =
    Some (JsString exampleJson) /\
  getProp "d" (entriesOf (sanitizeMetadata exampleNumberToJSON
                            (Some exampleMetadata))) = None.
Proof.
  assert (Hnd : List.NoDup (keysOf exampleMetadata)).
  { simpl. repeat constructor; simpl; intuition discriminate. }
  split; [exact Hnd|]. split; [reflexivity|].
  destruct (sanitizeMetadata_entries exampleNumberToJSON exampleMetadata Hnd)
    as (H & Hnull & _).
  split.
  - destruct (H "e" (JsObject [("f", JsNumber num_1)])) as (_ & _ & He).
    { simpl. tauto. }
    { discriminate. }
    destruct (He eq_refl eq_refl) as (json & Hj & Hg).
    inversion Hj; subst json. exact Hg.
  - apply (Hnull "d" JsNull); [simpl; tauto | reflexivity].
Defined.

(* ===================================================================== *)
(** * Properties of the masked credential *)
(* ===================================================================== *)

Lemma length_append (s1 s2 : string) :
  String.length (s1 +:+ s2) = (String.length s1 + String.length s2)%nat.
Proof. induction s1 as [|c s1 IH]; simpl; [reflexivity | rewrite IH; reflexivity]. Qed.

Lemma length_substring (s : string) : forall n m,
  (n + m <= String.length s)%nat ->
  String.length (String.substring n m s) = m.
Proof.
  induction s as [|c s IH]; intros n m H; simpl in H.
  - destruct n, m; simpl; lia.
  - destruct n as [|n]; destruct m as [|m]; simpl; try reflexivity.
    + rewrite IH by lia. reflexivity.
    + apply IH. lia.
    + apply IH. lia.
Qed.

Lemma jsSubstring_prefix key :
  (7 <= String.length key)%nat ->
  jsSubstring 0 7 key = String.substring 0 7 key.
Proof.
  intros H. unfold jsSubstring.
  replace (Nat.min 7 (String.length key)) with 7%nat by lia.
  reflexivity.
Qed.

Lemma jsSubstringFrom_suffix key :
  (4 <= String.length key)%nat ->
  jsSubstringFrom (String.length key - 4) key =
    String.substring (String.length key - 4) 4 key.
Proof.
  intros H. unfold jsSubstringFrom, jsSubstring.
  set (len := String.length key) in *.
  replace (Nat.min (len - 4) len) with (len - 4)%nat by lia.
  replace (Nat.min len len) with len by lia.
  replace (Nat.min (len - 4) len) with (len - 4)%nat by lia.
  replace (Nat.max (len - 4) len) with len by lia.
  replace (len - (len - 4))%nat with 4%nat by lia.
  reflexivity.
Qed.

Lemma getMaskedApiKey_long key :
  (10 < String.length key)%nat ->
  getMaskedApiKey key =
    String.substring 0 7 key +:+ "..." +:+
    String.substring (String.length key - 4) 4 key.
Proof.
  intros H. unfold getMaskedApiKey.
  destruct (Nat.leb_spec (String.length key) 10); [lia|].
  rewrite jsSubstring_prefix, jsSubstringFrom_suffix by lia. reflexivity.
Qed.

Lemma occursIn_length needle hay :
  occursIn needle hay -> (String.length needle <= String.length hay)%nat.
Proof.
  intros (pre & post & ->). rewrite !length_append. lia.
Qed.

Lemma isValidApiKey_nonempty key :
  isValidApiKey key = true -> String.eqb key EmptyString = false.
Proof.
  unfold isValidApiKey. intros H. apply andb_true_iff in H as [_ H].
  destruct key; [discriminate H | reflexivity].
Qed.

Lemma isValidApiKey_length key :
  isValidApiKey key = true -> (20 < String.length key)%nat.
Proof.
  unfold isValidApiKey. intros H. apply andb_true_iff in H as [_ H].
  apply Nat.ltb_lt. exact H.
Qed.

(** What the validator answers, by cases on the credential. *)
Lemma validateAndMergeConfig_cases (p : PartialConfig) :
  match read (p_apiKey p) with
  | Some key =>
      if isValidApiKey key then
        validateAndMergeConfig p = Fulfilled (mergeWithDefaults p key)
      else exists msg,
        validateAndMergeConfig p = Rejected (OpenAIConfigurationError msg None)
  | None => exists msg,
      validateAndMergeConfig p = Rejected (OpenAIConfigurationError msg None)
  end.
Proof.
  unfold validateAndMergeConfig.
  destruct (read (p_apiKey p)) as [key|]; [|eexists; reflexivity].
  destruct (isValidApiKey key) eqn:Hv.
  - unfold truthyStr. rewrite (isValidApiKey_nonempty key Hv). reflexivity.
  - unfold truthyStr. destruct (String.eqb key EmptyString); simpl;
      eexists; reflexivity.
Qed.

(** The credential of an accepted config is the one given, and it has the
    accepted shape. *)
Lemma validateAndMergeConfig_key (p : PartialConfig) (c : OpenAIProviderConfig) :
  validateAndMergeConfig p = Fulfilled c ->
  read (p_apiKey p) = Some (apiKey c) /\
  isValidApiKey (apiKey c) = true /\
  c = mergeWithDefaults p (apiKey c).
Proof.
  intros Hacc. pose proof (validateAndMergeConfig_cases p) as H.
  destruct (read (p_apiKey p)) as [key|]; [|destruct H as [? H]; congruence].
  destruct (isValidApiKey key) eqn:Hv; [|destruct H as [? H]; congruence].
  rewrite H in Hacc. inversion Hacc; subst c. cbn [mergeWithDefaults apiKey].
  repeat split. exact Hv.
Qed.

Lemma getMaskedApiKey_hides_valid key :
  isValidApiKey key = true ->
  String.length (getMaskedApiKey key) = 14%nat /\
  ~ occursIn key (getMaskedApiKey key).
Proof.
  intros Hv. apply isValidApiKey_length in Hv.
  assert (Hlen : String.length (getMaskedApiKey key) = 14%nat).
  { rewrite getMaskedApiKey_long by lia.
    rewrite !length_append, !length_substring by lia. reflexivity. }
  split; [exact Hlen|].
  intros Hocc. apply occursIn_length in Hocc. lia.
Qed.

(** C9. The accessor masks the credential of a config manager, which the
    validator accepted.  For a credential longer than 10 characters the
    masked form is its first 7 characters, three dots and its last 4
    characters, 14 characters in all, and is the same for any two
    credentials that agree on these 11 characters; for every credential a
    manager holds, which is longer than 20 characters, the credential itself
    does not occur in the masked form; for a credential of at most 10
    characters the masked form is the constant text of three asterisks. *)
Theorem getMaskedApiKey_reveals_prefix_and_suffix (key : string) :
  ((10 < String.length key)%nat ->
     getMaskedApiKey key =
       String.substring 0 7 key +:+ "..." +:+
       String.substring (String.length key - 4) 4 key /\
     String.length (getMaskedApiKey key) = 14%nat /\
     forall key', (10 < String.length key')%nat ->
       String.substring 0 7 key' = String.substring 0 7 key ->
       String.substring (String.length key' - 4) 4 key' =
         String.substring (String.length key - 4) 4 key ->
       getMaskedApiKey key' = getMaskedApiKey key) /\
  (forall config c,
     validateAndMergeConfig config = Fulfilled c -> apiKey c = key ->
     (20 < String.length key)%nat /\
     ~ occursIn key (getMaskedApiKey key)) /\
  ((String.length key <= 10)%nat -> getMaskedApiKey key = "***").
Proof.
  split; [|split].
  - intros H. split; [apply getMaskedApiKey_long; exact H|]. split.
    + rewrite getMaskedApiKey_long by exact H.
      rewrite !length_append, !length_substring by lia. reflexivity.
    + intros key' H' Hp Hs.
      rewrite (getMaskedApiKey_long key H), (getMaskedApiKey_long key' H'), Hp, Hs.
      reflexivity.
  - intros config c Hacc Hkey.
    destruct (validateAndMergeConfig_key config c Hacc) as (_ & Hv & _).
    rewrite Hkey in Hv. split; [apply isValidApiKey_length; exact Hv|].
    apply getMaskedApiKey_hides_valid. exact Hv.
  - intros H. unfold getMaskedApiKey.
    destruct (Nat.leb_spec (String.length key) 10); [reflexivity | lia].
Qed.

Lemma getMaskedApiKey_reveals_prefix_and_suffix_witness :
  (exists c, validateAndMergeConfig (factoryConfig sampleKey None) = Fulfilled c /\
             apiKey c = sampleKey) /\
  getMaskedApiKey sampleKey = "sk-proj...ghij" /\
  ~ occursIn sampleKey (getMaskedApiKey sampleKey).
Proof.
  split; [eexists; split; reflexivity|]. split; [reflexivity|].
  destruct (getMaskedApiKey_reveals_prefix_and_suffix sampleKey) as (_ & H & _).
  apply (H (factoryConfig sampleKey None) _ eq_refl eq_refl).
Defined.

(* ===================================================================== *)
(** * Properties of the attach polling *)
(* ===================================================================== *)

Lemma actions_app tr1 tr2 : actions (tr1 ++ tr2) = actions tr1 ++ actions tr2.
Proof.
  induction tr1 as [|ev tr1 IH]; [reflexivity|].
  destruct ev; simpl; rewrite IH; reflexivity.
Qed.

Lemma polls_app tr1 tr2 : polls (tr1 ++ tr2) = (polls tr1 + polls tr2)%nat.
Proof. unfold polls. rewrite List.filter_app, List.length_app. reflexivity. Qed.

Lemma polls_actions tr : polls (actions tr) = polls tr.
Proof.
  induction tr as [|ev tr IH]; [reflexivity|].
  destruct ev; simpl; unfold polls in *; simpl; rewrite ?IH; reflexivity.
Qed.

Ltac polls_arith :=
  cbn [waitLoop fst snd]; unfold polls in *; simpl; lia.

Section PollingFacts.
Variable retrieve : Z -> Completion (option JsError) VectorStoreFile.
Variable maxAttempts : Z.

(** One pass through the body makes one vendor call and nothing else but
    logging. *)
Lemma loopBody_actions attempt :
  actions (snd (loopBody retrieve maxAttempts attempt)) = [EvRetrieve].
Proof.
  unfold loopBody, tryBlock, catchBlock.
  destruct (retrieve attempt) as [file|[e|]]; simpl.
  - destruct (file_status file); reflexivity.
  - destruct (is404 e && (attempt <? maxAttempts)); reflexivity.
  - reflexivity.
Qed.

Lemma loopBody_notYetReady attempt :
  attempt < maxAttempts ->
  notYetReady (retrieve attempt) ->
  fst (loopBody retrieve maxAttempts attempt) = Next.
Proof.
  intros Hlt [(file & Hr & Hs) | (e & Hr & He)];
    unfold loopBody, tryBlock, catchBlock; rewrite Hr; simpl.
  - rewrite Hs. reflexivity.
  - rewrite He. apply Z.ltb_lt in Hlt. rewrite Hlt. reflexivity.
Qed.

Lemma loopBody_inProgress attempt :
  stillInProgress (retrieve attempt) ->
  fst (loopBody retrieve maxAttempts attempt) = Next.
Proof.
  intros (file & Hr & Hs). unfold loopBody, tryBlock. rewrite Hr, Hs.
  reflexivity.
Qed.

Lemma loopBody_completed attempt file :
  retrieve attempt = Fulfilled file -> file_status file = completed ->
  fst (loopBody retrieve maxAttempts attempt) = Return file.
Proof.
  intros Hr Hs. unfold loopBody, tryBlock. rewrite Hr, Hs. reflexivity.
Qed.

Lemma loopBody_failed attempt file :
  retrieve attempt = Fulfilled file -> file_status file = failed ->
  fst (loopBody retrieve maxAttempts attempt) =
    Throw (Some (newError (failedMessage file))).
Proof.
  intros Hr Hs. unfold loopBody, tryBlock. rewrite Hr, Hs. reflexivity.
Qed.

Lemma loopBody_cancelled attempt file :
  retrieve attempt = Fulfilled file -> file_status file = cancelled ->
  fst (loopBody retrieve maxAttempts attempt) =
    Throw (Some (newError cancelledMessage)).
Proof.
  intros Hr Hs. unfold loopBody, tryBlock. rewrite Hr, Hs. reflexivity.
Qed.

(** An error of the last attempt is thrown as it is. *)
Lemma loopBody_last_error e :
  retrieve maxAttempts = Rejected (Some e) ->
  fst (loopBody retrieve maxAttempts maxAttempts) = Throw (Some e).
Proof.
  intros Hr. unfold loopBody, tryBlock, catchBlock. rewrite Hr.
  rewrite Z.ltb_irrefl, andb_false_r. reflexivity.
Qed.

(** One unfolding of the loop. *)
Lemma waitLoop_step n attempt delayMs :
  waitLoop retrieve maxAttempts (S n) attempt delayMs =
    let wait := if 1 <? attempt then [EvSleep delayMs] else [] in
    let delayMs' := if 1 <? attempt then nextDelay delayMs else delayMs in
    match loopBody retrieve maxAttempts attempt with
    | (Return file, tr) => (Fulfilled file, wait ++ tr)
    | (Throw err, tr) => (Rejected err, wait ++ tr)
    | (Next, tr) =>
        let '(r, rest) := waitLoop retrieve maxAttempts n (attempt + 1) delayMs' in
        (r, wait ++ tr ++ rest)
    end.
Proof. reflexivity. Qed.

(** After the first attempt the loop alternates waits and polls, the waits
    following the backoff, and makes at most as many polls as it has
    iterations left. *)
Lemma waitLoop_later n : forall attempt i,
  1 < attempt ->
  let tr := snd (waitLoop retrieve maxAttempts n attempt (delayAfter i)) in
  actions tr = pollsFrom (polls tr) i /\ (polls tr <= n)%nat.
Proof.
  induction n as [|n IH]; intros attempt i Hlt; [split; [reflexivity | polls_arith]|].
  cbv zeta. rewrite waitLoop_step. cbv zeta.
  assert (H1 : (1 <? attempt) = true) by (apply Z.ltb_lt; exact Hlt).
  rewrite H1.
  pose proof (loopBody_actions attempt) as Hb.
  destruct (loopBody retrieve maxAttempts attempt) as [[file|err|] tr]; cbn [snd] in Hb |- *.
  - rewrite polls_app, actions_app, Hb, <- (polls_actions tr), Hb.
    split; [reflexivity | polls_arith].
  - rewrite polls_app, actions_app, Hb, <- (polls_actions tr), Hb.
    split; [reflexivity | polls_arith].
  - specialize (IH (attempt + 1) (S i) ltac:(lia)). cbv zeta in IH.
    change (nextDelay (delayAfter i)) with (delayAfter (S i)).
    destruct (waitLoop retrieve maxAttempts n (attempt + 1) (delayAfter (S i)))
      as [r rest]. cbn [snd] in IH |- *. destruct IH as [IHa IHp].
    rewrite !polls_app, !actions_app, Hb, <- (polls_actions tr), Hb, IHa.
    split; [reflexivity | polls_arith].
Qed.

(** The whole run from 1000 ms: [polls] polls laid out as [schedule]. *)
Lemma waitForVectorStoreFile_schedule :
  let tr := snd (waitForVectorStoreFile retrieve maxAttempts 1000) in
  actions tr = schedule (polls tr) /\ (polls tr <= Z.to_nat maxAttempts)%nat /\
  (1 <= maxAttempts -> (1 <= polls tr)%nat).
Proof.
  cbv zeta. unfold waitForVectorStoreFile.
  destruct (Z.to_nat maxAttempts) as [|n] eqn:En.
  { repeat split; polls_arith. }
  rewrite waitLoop_step. cbv zeta. change (1 <? 1) with false. cbv iota.
  pose proof (loopBody_actions 1) as Hb.
  destruct (loopBody retrieve maxAttempts 1) as [[file|err|] tr]; cbn [snd] in Hb |- *.
  - rewrite app_nil_l, <- (polls_actions tr), Hb.
    repeat split; polls_arith.
  - rewrite app_nil_l, <- (polls_actions tr), Hb.
    repeat split; polls_arith.
  - pose proof (waitLoop_later n (1 + 1) 0 ltac:(lia)) as Hl. cbv zeta in Hl.
    change (delayAfter 0) with (1000 : Q) in Hl.
    destruct (waitLoop retrieve maxAttempts n (1 + 1) 1000) as [r rest].
    cbn [snd] in Hl |- *. destruct Hl as [Ha Hp].
    rewrite app_nil_l, polls_app, actions_app, Hb, <- (polls_actions tr), Hb, Ha.
    repeat split; polls_arith.
Qed.

(** Polls that are not yet ready are passed over: the outcome is that of
    the loop started at the first poll after them. *)
Lemma waitLoop_skips m : forall n attempt delayMs,
  (forall j, attempt <= j < attempt + Z.of_nat m -> notYetReady (retrieve j)) ->
  attempt + Z.of_nat m <= maxAttempts ->
  exists delayMs',
    let run := waitLoop retrieve maxAttempts (m + n) attempt delayMs in
    let run' := waitLoop retrieve maxAttempts n (attempt + Z.of_nat m) delayMs' in
    fst run = fst run' /\ polls (snd run) = (m + polls (snd run'))%nat.
Proof.
  induction m as [|m IH]; intros n attempt delayMs Hpend Hle.
  - exists delayMs. cbv zeta. rewrite Z.add_0_r. split; reflexivity.
  - destruct (IH n (attempt + 1)
                (if 1 <? attempt then nextDelay delayMs else delayMs))
      as (d' & IH').
    { intros j Hj. apply Hpend. lia. }
    { lia. }
    exists d'. cbv zeta in IH' |- *.
    replace (attempt + Z.of_nat (S m)) with (attempt + 1 + Z.of_nat m) by lia.
    change (S m + n)%nat with (S (m + n)). rewrite waitLoop_step. cbv zeta.
    pose proof (loopBody_notYetReady attempt ltac:(lia) (Hpend attempt ltac:(lia))) as Hn.
    pose proof (loopBody_actions attempt) as Hb.
    destruct (loopBody retrieve maxAttempts attempt) as [out tr].
    cbn [fst snd] in Hn, Hb. subst out.
    destruct (waitLoop retrieve maxAttempts (m + n) (attempt + 1) _) as [r rest].
    cbn [fst snd] in IH' |- *. destruct IH' as [IHr IHp].
    split; [exact IHr|].
    rewrite !polls_app, <- (polls_actions tr), Hb, IHp.
    destruct (1 <? attempt); polls_arith.
Qed.

(** The poll after [m] not-yet-ready polls decides, when its body does not
    ask for another pass. *)
Lemma waitLoop_decided m n attempt delayMs out :
  (forall j, attempt <= j < attempt + Z.of_nat m -> notYetReady (retrieve j)) ->
  attempt + Z.of_nat m <= maxAttempts ->
  fst (loopBody retrieve maxAttempts (attempt + Z.of_nat m)) = out ->
  out <> Next ->
  let run := waitLoop retrieve maxAttempts (m + S n) attempt delayMs in
  fst run = match out with
            | Return file => Fulfilled file
            | Throw err => Rejected err
            | Next => fst run
            end /\
  polls (snd run) = S m.
Proof.
  intros Hpend Hle Hout Hnot.
  destruct (waitLoop_skips m (S n) attempt delayMs Hpend Hle) as (d' & Hr & Hp).
  cbv zeta in *. rewrite Hr, Hp. rewrite waitLoop_step. cbv zeta.
  pose proof (loopBody_actions (attempt + Z.of_nat m)) as Hb.
  destruct (loopBody retrieve maxAttempts (attempt + Z.of_nat m)) as [o tr].
  cbn [fst snd] in Hout, Hb. subst o.
  destruct out as [file|err|]; [| |contradiction];
    cbn [fst snd]; rewrite polls_app, <- (polls_actions tr), Hb;
    (split; [reflexivity|]); destruct (1 <? _); polls_arith.
Qed.

(** When every poll of the budget is not yet ready and the last one finds
    the file in progress, the loop ends and the timeout error is thrown. *)
Lemma waitLoop_times_out delayMs :
  1 <= maxAttempts ->
  (forall j, 1 <= j < maxAttempts -> notYetReady (retrieve j)) ->
  stillInProgress (retrieve maxAttempts) ->
  let run := waitLoop retrieve maxAttempts (Z.to_nat maxAttempts) 1 delayMs in
  fst run = Rejected (Some (newError (timeoutMessage maxAttempts))) /\
  polls (snd run) = Z.to_nat maxAttempts.
Proof.
  intros Hmax Hpend Hlast.
  set (m := Z.to_nat (maxAttempts - 1)).
  assert (Hm : 1 + Z.of_nat m = maxAttempts) by (unfold m; lia).
  destruct (waitLoop_skips m 1 1 delayMs) as (d' & Hr & Hp).
  { intros j Hj. apply Hpend. lia. }
  { lia. }
  cbv zeta in *. replace (Z.to_nat maxAttempts) with (m + 1)%nat by lia.
  rewrite Hr, Hp, Hm. rewrite waitLoop_step. cbv zeta.
  pose proof (loopBody_inProgress maxAttempts Hlast) as Hn.
  pose proof (loopBody_actions maxAttempts) as Hb.
  destruct (loopBody retrieve maxAttempts maxAttempts) as [o tr].
  cbn [fst snd] in Hn, Hb. subst o. cbn [waitLoop fst snd].
  split; [reflexivity|].
  rewrite !polls_app, <- (polls_actions tr), Hb.
  destruct (1 <? _); polls_arith.
Qed.
End PollingFacts.

Lemma delayAfter_capped i : (4 <= i)%nat -> delayAfter i = 5000%Q.
Proof.
  induction 1 as [|i _ IH]; [reflexivity|].
  change (delayAfter (S i)) with (nextDelay (delayAfter i)). rewrite IH.
  reflexivity.
Qed.

Lemma delayAfter_rule i :
  (delayAfter (S i) == Qmin (delayAfter i * (3 # 2)) 5000)%Q.
Proof. simpl. unfold nextDelay. apply Qred_correct. Qed.

(** How the attach call ends once the poll has ended, for a file that the
    attach call reported in progress. *)
Lemma createAndPoll_in_progress create retrieve file0 :
  create = Fulfilled file0 -> file_status file0 = in_progress ->
  fst (createAndPollVectorStoreFile create retrieve) =
    match fst (waitForVectorStoreFile retrieve 60 1000) with
    | Fulfilled processed => Fulfilled (toFileInfo processed)
    | Rejected err => Rejected (mapOpenAIError err)
    end.
Proof.
  intros Hc Hs. unfold createAndPollVectorStoreFile. rewrite Hc, Hs.
  destruct (waitForVectorStoreFile retrieve 60 1000) as [[f|err] tr]; reflexivity.
Qed.

(** C5. The polling loop polls at least once and at most 60 times; the
    first poll comes with no wait and every later poll after a wait, the
    waits being 1000 ms first and then the minimum of 1.5 times the previous
    wait and 5000 ms; a poll that sees Completed after polls that were all
    not yet ready (in progress, or a 404 before the last attempt) ends the
    loop with that record and without further polls, so Completed at the
    first poll returns with no wait, and the polls NotFound, InProgress,
    Completed return the completed record after three polls. *)
Theorem waitForVectorStoreFile_polling_policy
    (retrieve : Z -> Completion (option JsError) VectorStoreFile) :
  let run := waitForVectorStoreFile retrieve 60 1000 in
  (1 <= polls (snd run) <= 60)%nat /\
  actions (snd run) = schedule (polls (snd run)) /\
  (delayAfter 0 = 1000%Q /\
   forall i, (delayAfter (S i) == Qmin (delayAfter i * (3 # 2)) 5000)%Q) /\
  (forall k file,
     1 <= k <= 60 ->
     (forall j, 1 <= j < k -> notYetReady (retrieve j)) ->
     retrieve k = Fulfilled file -> file_status file = completed ->
     fst run = Fulfilled file /\ polls (snd run) = Z.to_nat k) /\
  (forall file,
     retrieve 1 = Fulfilled file -> file_status file = completed ->
     fst run = Fulfilled file /\ actions (snd run) = [EvRetrieve]) /\
  (let run3 := waitForVectorStoreFile notFoundThenReady 60 1000 in
   fst run3 = Fulfilled (fileWith completed) /\
   actions (snd run3) =
     [EvRetrieve; EvSleep 1000; EvRetrieve; EvSleep 1500; EvRetrieve]).
Proof.
  intros run.
  destruct (waitForVectorStoreFile_schedule retrieve 60) as (Ha & Hle & Hge).
  fold run in Ha, Hle, Hge.
  assert (Hk : forall k file,
             1 <= k <= 60 ->
             (forall j, 1 <= j < k -> notYetReady (retrieve j)) ->
             retrieve k = Fulfilled file -> file_status file = completed ->
             fst run = Fulfilled file /\ polls (snd run) = Z.to_nat k).
  { intros k file Hk Hpend Hr Hs.
    pose proof (waitLoop_decided retrieve 60 (Z.to_nat (k - 1)) (Z.to_nat (60 - k))
                  1 1000 (Return file)) as H.
    replace (1 + Z.of_nat (Z.to_nat (k - 1))) with k in H by lia.
    specialize (H Hpend ltac:(lia) (loopBody_completed retrieve 60 k file Hr Hs)
                  ltac:(discriminate)).
    cbv zeta in H.
    replace (Z.to_nat (k - 1) + S (Z.to_nat (60 - k)))%nat with (Z.to_nat 60) in H by lia.
    destruct H as [H1 H2]. split; [exact H1|]. unfold run, waitForVectorStoreFile.
    rewrite H2. lia. }
  split; [split; [apply Hge; lia | exact Hle]|].
  split; [exact Ha|].
  split; [split; [reflexivity | exact delayAfter_rule]|].
  split; [exact Hk|].
  split; [|split; reflexivity].
  intros file Hr Hs.
  destruct (Hk 1 file ltac:(lia) ltac:(intros; lia) Hr Hs) as [H1 H2].
  split; [exact H1|]. rewrite Ha, H2. reflexivity.
Qed.

Lemma waitForVectorStoreFile_polling_policy_witness :
  (forall j, 1 <= j < 3 -> notYetReady (notFoundThenReady j)) /\
  fst (waitForVectorStoreFile notFoundThenReady 60 1000) =
    Fulfilled (fileWith completed) /\
  polls (snd (waitForVectorStoreFile notFoundThenReady 60 1000)) = 3%nat.
Proof.
  assert (Hpend : forall j, 1 <= j < 3 -> notYetReady (notFoundThenReady j)).
  { intros j Hj. assert (Hc : j = 1 \/ j = 2) by lia.
    destruct Hc as [-> | ->].
    - right. exists vendor404. split; reflexivity.
    - left. exists (fileWith in_progress). split; reflexivity. }
  split; [exact Hpend|].
  destruct (waitForVectorStoreFile_polling_policy notFoundThenReady)
    as (_ & _ & _ & H & _).
  apply (H 3 (fileWith completed)); [lia | exact Hpend | reflexivity | reflexivity].
Defined.

Lemma mapOpenAIError_newError msg :
  msg <> EmptyString ->
  mapOpenAIError (Some (newError msg)) = unclassified msg.
Proof.
  intros Hne. apply String.eqb_neq in Hne.
  unfold mapOpenAIError, errorMessage, errorType, rawStatus, newError,
    orStrDefault, orStr, chain, truthyStr. simpl.
  rewrite Hne. simpl. rewrite Hne. reflexivity.
Qed.

(** C6 (as amended). For a file the attach call reported in progress: a
    poll that sees Failed, after polls that were not yet ready, makes the
    attach call fail with the message that carries the vendor's reason when
    there is one; a poll that sees Cancelled makes it fail with the
    cancellation message, which differs from every failure message; when all
    60 polls are not yet ready and the last one sees the file in progress,
    it fails after exactly 60 polls with the message that begins with
    Timeout and names the 60 attempts.  In all three cases the error that
    reaches the caller is of the generic class, with type unknown_error and
    status 500.  An error of the 60th poll is classified and raised as it
    is. *)
Theorem attach_polling_failures
    (create : Completion (option JsError) VectorStoreFile)
    (retrieve : Z -> Completion (option JsError) VectorStoreFile)
    (file0 : VectorStoreFile) :
  create = Fulfilled file0 -> file_status file0 = in_progress ->
  let run := createAndPollVectorStoreFile create retrieve in
  (forall k file,
     1 <= k <= 60 ->
     (forall j, 1 <= j < k -> notYetReady (retrieve j)) ->
     retrieve k = Fulfilled file ->
     (file_status file = failed ->
        fst run = Rejected (unclassified (failedMessage file))) /\
     (file_status file = cancelled ->
        fst run = Rejected (unclassified cancelledMessage))) /\
  ((forall j, 1 <= j < 60 -> notYetReady (retrieve j)) ->
   stillInProgress (retrieve 60) ->
   fst run = Rejected (unclassified (timeoutMessage 60)) /\
   polls (snd run) = 60%nat) /\
  ((forall j, 1 <= j < 60 -> notYetReady (retrieve j)) ->
   forall e, retrieve 60 = Rejected (Some e) ->
   fst run = Rejected (mapOpenAIError (Some e))) /\
  (forall file reason,
     last_error file = Some reason -> reason <> EmptyString ->
     failedMessage file = "Archivo falló al procesarse: " +:+ reason) /\
  (forall file, failedMessage file <> cancelledMessage) /\
  timeoutMessage 60 =
    "Timeout: Archivo no completó procesamiento después de 60 intentos" /\
  classifiedAs (unclassified (timeoutMessage 60)) NameOpenAIError 500.
Proof.
  intros Hc Hs run.
  pose proof (createAndPoll_in_progress create retrieve file0 Hc Hs) as Hrun.
  fold run in Hrun.
  assert (Hdec : forall k out,
             1 <= k <= 60 ->
             (forall j, 1 <= j < k -> notYetReady (retrieve j)) ->
             fst (loopBody retrieve 60 k) = Throw out ->
             fst run = Rejected (mapOpenAIError out)).
  { intros k out Hk Hpend Hbody.
    pose proof (waitLoop_decided retrieve 60 (Z.to_nat (k - 1)) (Z.to_nat (60 - k))
                  1 1000 (Throw out)) as H.
    replace (1 + Z.of_nat (Z.to_nat (k - 1))) with k in H by lia.
    specialize (H Hpend ltac:(lia) Hbody ltac:(discriminate)). cbv zeta in H.
    replace (Z.to_nat (k - 1) + S (Z.to_nat (60 - k)))%nat with (Z.to_nat 60) in H by lia.
    destruct H as [H _]. rewrite Hrun. unfold waitForVectorStoreFile.
    rewrite H. reflexivity. }
  split; [|split; [|split; [|split; [|split; [|split]]]]].
  - intros k file Hk Hpend Hr. split; intros Hf.
    + rewrite (Hdec k _ Hk Hpend (loopBody_failed retrieve 60 k file Hr Hf)).
      rewrite mapOpenAIError_newError; [reflexivity | discriminate].
    + rewrite (Hdec k _ Hk Hpend (loopBody_cancelled retrieve 60 k file Hr Hf)).
      rewrite mapOpenAIError_newError; [reflexivity | discriminate].
  - intros Hpend Hlast.
    destruct (waitLoop_times_out retrieve 60 1000 ltac:(lia) Hpend Hlast) as [Ht Hp].
    cbv zeta in Ht, Hp. split.
    + rewrite Hrun. unfold waitForVectorStoreFile. rewrite Ht. reflexivity.
    + unfold run, createAndPollVectorStoreFile. rewrite Hc, Hs.
      unfold waitForVectorStoreFile.
      destruct (waitLoop retrieve 60 (Z.to_nat 60) 1 1000) as [r tr].
      cbn [fst snd] in Ht, Hp. subst r. cbn [snd].
      rewrite !polls_app, Hp. reflexivity.
  - intros Hpend e He. apply (Hdec 60); [lia | exact Hpend |].
    apply loopBody_last_error. exact He.
  - intros file reason Hl Hne. unfold failedMessage, orStrDefault. rewrite Hl.
    apply String.eqb_neq in Hne. rewrite Hne. reflexivity.
  - intros file Heq. unfold failedMessage, cancelledMessage in Heq.
    discriminate Heq.
  - reflexivity.
  - split; reflexivity.
Qed.

Lemma attach_polling_failures_witness :
  fst (createAndPollVectorStoreFile (Fulfilled (fileWith in_progress))
         failsAtSecondPoll) =
    Rejected (unclassified "Archivo falló al procesarse: unsupported_file") /\
  fst (createAndPollVectorStoreFile (Fulfilled (fileWith in_progress)) neverReady) =
    Rejected (unclassified (timeoutMessage 60)).
Proof.
  split.
  - destruct (attach_polling_failures (Fulfilled (fileWith in_progress))
                failsAtSecondPoll (fileWith in_progress) eq_refl eq_refl)
      as (H & _).
    destruct (H 2 failedFile) as (Hf & _); [lia | | reflexivity | exact (Hf eq_refl)].
    intros j Hj. assert (j = 1) by lia. subst j.
    left. exists (fileWith in_progress). split; reflexivity.
  - destruct (attach_polling_failures (Fulfilled (fileWith in_progress))
                neverReady (fileWith in_progress) eq_refl eq_refl)
      as (_ & H & _).
    apply H.
    + intros j _. left. exists (fileWith in_progress). split; reflexivity.
    + exists (fileWith in_progress). split; reflexivity.
Defined.

(** C6 as stated fails: when the 60 polls all find the file in progress, the
    error that reaches the caller is not of the Timeout class with status
    408. *)
Lemma attach_timeout_not_timeout_kind :
  ~ (forall retrieve,
       (forall j, stillInProgress (retrieve j)) ->
       exists r,
         fst (createAndPollVectorStoreFile (Fulfilled (fileWith in_progress))
                retrieve) = Rejected r /\
         classifiedAs r NameOpenAITimeoutError 408).
Proof.
  intros H.
  destruct (H neverReady) as (r & Hr & Hname & _).
  { intros j. exists (fileWith in_progress). split; reflexivity. }
  vm_compute in Hr. inversion Hr; subst r. discriminate Hname.
Qed.

(* ===================================================================== *)
(** * Properties of the provider factory *)
(* ===================================================================== *)

Section FactoryFacts.
Variable openaiConfig : EnvConfig.

Lemma createOpenAIProvider_unusable st :
  credentialUnusable openaiConfig -> instance st = None ->
  exists evs,
    createOpenAIProvider openaiConfig st = (Fulfilled None, st, evs) /\
    Forall isLog evs.
Proof.
  intros Hbad Hinst. unfold createOpenAIProvider.
  destruct (truthyStr (env_apiKey openaiConfig)) eqn:Ht; simpl.
  - destruct Hbad as [Hmissing | (key & Hkey & Hshape)]; [congruence|].
    unfold getInstance, construct, validateAndMergeConfig. rewrite Hinst.
    simpl. rewrite Ht, Hkey, Hshape. simpl.
    eexists. split; [reflexivity|]. repeat constructor.
  - eexists. split; [reflexivity|]. repeat constructor.
Qed.

Lemma getProvider_pristine type st :
  credentialUnusable openaiConfig -> pristine st ->
  exists evs,
    getProvider openaiConfig type st = (Fulfilled None, st, evs) /\
    Forall isLog evs.
Proof.
  intros Hbad [Hinst Hprov]. unfold getProvider.
  rewrite Hprov, lookup_empty.
  destruct (String.eqb type OPENAI).
  - destruct (createOpenAIProvider_unusable st Hbad Hinst) as (evs & -> & Hlog).
    exists evs. split; [reflexivity | exact Hlog].
  - eexists. split; [reflexivity|]. repeat constructor.
Qed.

(** With an unusable credential the factory never leaves the state in
    which nothing is registered. *)
Lemma reachable_pristine st :
  credentialUnusable openaiConfig -> reachable openaiConfig st -> pristine st.
Proof.
  intros Hbad. induction 1 as [|type st Hreach IH|st Hreach IH].
  - split; reflexivity.
  - destruct (getProvider_pristine type st Hbad IH) as (evs & -> & _). exact IH.
  - split; reflexivity.
Qed.
End FactoryFacts.

(** C7. When the mandatory credential is missing or malformed, in every
    state the factory can be in, [getProvider] returns [null] for every
    provider type without throwing; it changes nothing and only logs. *)
Theorem getProvider_unusable_credential
    (openaiConfig : EnvConfig) (type : string) (st : Statics) :
  credentialUnusable openaiConfig ->
  reachable openaiConfig st ->
  exists evs,
    getProvider openaiConfig type st = (Fulfilled None, st, evs) /\
    Forall isLog evs.
Proof.
  intros Hbad Hreach. apply getProvider_pristine; [exact Hbad|].
  apply (reachable_pristine openaiConfig); assumption.
Qed.

Lemma getProvider_unusable_credential_witness :
  credentialUnusable envMalformedKey /\
  reachable envMalformedKey (fst (resetAll initial)) /\
  exists evs,
    getProvider envMalformedKey OPENAI (fst (resetAll initial)) =
      (Fulfilled None, fst (resetAll initial), evs) /\
    Forall isLog evs.
Proof.
  assert (Hbad : credentialUnusable envMalformedKey).
  { right. exists "not-a-key". split; reflexivity. }
  assert (Hreach : reachable envMalformedKey (fst (resetAll initial))).
  { apply reach_resetAll. apply reach_initial. }
  split; [exact Hbad|]. split; [exact Hreach|].
  exact (getProvider_unusable_credential envMalformedKey OPENAI _ Hbad Hreach).
Defined.

(** C8. When a call of [getProvider] returns a provider, the next call for
    the same type returns the same instance, constructs nothing, logs
    nothing and leaves the state as it is. *)
Theorem getProvider_twice_same_instance
    (openaiConfig : EnvConfig) (type : string) (st st1 : Statics)
    (p : Instance) (evs : list Event) :
  getProvider openaiConfig type st = (Fulfilled (Some p), st1, evs) ->
  getProvider openaiConfig type st1 = (Fulfilled (Some p), st1, []).
Proof.
  unfold getProvider at 1.
  destruct (providers st !! type) as [q|] eqn:Hlook.
  - intros H. inversion H; subst. unfold getProvider. rewrite Hlook. reflexivity.
  - destruct (String.eqb type OPENAI); [|discriminate].
    destruct (createOpenAIProvider openaiConfig st) as [[[[q|]|e] st'] evs'];
      try discriminate.
    destruct (isReady q); [|discriminate].
    intros H. inversion H; subst. unfold getProvider. cbn [providers].
    rewrite lookup_insert_eq. reflexivity.
Qed.

Lemma getProvider_twice_same_instance_witness :
  exists p st1 evs,
    getProvider envValidKey OPENAI initial = (Fulfilled (Some p), st1, evs) /\
    ref p = 0%nat /\
    getProvider envValidKey OPENAI st1 = (Fulfilled (Some p), st1, []).
Proof.
  do 3 eexists.
  assert (H : getProvider envValidKey OPENAI initial =
              (Fulfilled (Some (mkInstance 0 "OpenAI" true
                 (mkConfig sampleKey None (Some "https://api.openai.com/v1")
                    (Some 60000) (Some 3)
                    (Some [("OpenAI-Beta", "assistants=v2")])))),
               mkStatics
                 (Some (mkInstance 0 "OpenAI" true
                    (mkConfig sampleKey None (Some "https://api.openai.com/v1")
                       (Some 60000) (Some 3)
                       (Some [("OpenAI-Beta", "assistants=v2")]))))
                 (<[OPENAI := mkInstance 0 "OpenAI" true
                    (mkConfig sampleKey None (Some "https://api.openai.com/v1")
                       (Some 60000) (Some 3)
                       (Some [("OpenAI-Beta", "assistants=v2")]))]> ∅)
                 1,
               [EvNewClient;
                EvLog Info "OpenAI Provider inicializado correctamente";
                EvLog Info "Proveedor openai creado y registrado exitosamente"])).
  { unfold getProvider, initial. cbn [providers]. rewrite lookup_empty.
    reflexivity. }
  split; [exact H|]. split; [reflexivity|].
  exact (getProvider_twice_same_instance envValidKey OPENAI _ _ _ _ H).
Defined.

(* ===================================================================== *)
(** * Further properties of the classifier and of handleError *)
(* ===================================================================== *)

Lemma orStrDefault_nonempty o d :
  d <> EmptyString -> orStrDefault o d <> EmptyString.
Proof.
  intros Hd. unfold orStrDefault. destruct o as [s|]; [|exact Hd].
  destruct (String.eqb_spec s EmptyString); assumption.
Qed.

Lemma orNumDefault_nonzero o d : d <> 0 -> orNumDefault o d <> 0.
Proof.
  intros Hd. unfold orNumDefault. destruct o as [z|]; [|exact Hd].
  destruct (Z.eqb_spec z 0); assumption.
Qed.

Lemma errorMessage_nonempty err : errorMessage err <> EmptyString.
Proof. apply orStrDefault_nonempty. discriminate. Qed.

Lemma recognizedTag_default ty :
  recognizedTag ty = false ->
  recognizedTag (Some (orStrDefault ty "unknown_error")) = false.
Proof.
  intros H. unfold orStrDefault. destruct ty as [t|]; [|reflexivity].
  destruct (String.eqb t EmptyString); [reflexivity | exact H].
Qed.

Lemma mapOpenAIError_classified err : Classified err (mapOpenAIError err).
Proof.
  unfold mapOpenAIError.
  destruct (mapByType (errorType err) (errorMessage err) err) as [e|] eqn:Et.
  - unfold mapByType in Et. destruct (errorType err) as [t|]; [|discriminate].
    repeat match type of Et with
           | (if ?b then _ else _) = _ => destruct b
           end; inversion Et; constructor.
  - assert (Hty : recognizedTag (errorType err) = false).
    { unfold mapByType in Et. unfold recognizedTag.
      destruct (errorType err) as [t|]; [|reflexivity].
      repeat match type of Et with
             | (if ?b then _ else _) = _ => destruct b eqn:?
             end; try discriminate Et.
      repeat match goal with E : _ = false |- _ => rewrite E; clear E end.
      reflexivity. }
    destruct (mapByStatus (rawStatus err) (errorMessage err) err) as [e|] eqn:Es.
    + unfold mapByStatus in Es. destruct (rawStatus err) as [s|]; [|discriminate].
      repeat match type of Es with
             | (if ?b then _ else _) = _ => destruct b
             end; inversion Es; constructor.
    + apply cl_generic.
      * apply recognizedTag_default. exact Hty.
      * apply orStrDefault_nonempty. discriminate.
      * apply orNumDefault_nonzero. discriminate.
      * unfold mapByStatus in Es. unfold orNumDefault.
        destruct (rawStatus err) as [s|]; [|right; reflexivity].
        destruct (Z.eqb_spec s 0); [right; reflexivity|].
        destruct (Z.eqb_spec s 401); [discriminate|].
        destruct (Z.eqb_spec s 404); [discriminate|].
        destruct (Z.eqb_spec s 429); [discriminate|].
        destruct (Z.eqb_spec s 408); [discriminate|].
        destruct (Z.leb_spec 400 s); destruct (Z.ltb_spec s 500);
          simpl in Es; try discriminate Es; try (left; lia).
        destruct (Z.leb_spec 500 s); [discriminate | lia].
      * unfold mapByStatus in Es. unfold orNumDefault.
        destruct (rawStatus err) as [s|]; [|lia].
        destruct (Z.eqb_spec s 0); [lia | reflexivity].
Qed.

(** What the classifier reads of an error that carries a message, a type
    and a [statusCode]. *)
Lemma mapOpenAIError_of_fields msg ty sc :
  msg <> EmptyString -> ty <> EmptyString -> sc <> 0 ->
  let again := Some (mkJsError (Some msg) (Some ty) None (Some sc) None) in
  mapOpenAIError again =
    match mapByType (Some ty) msg again with
    | Some e => e
    | None =>
        match mapByStatus (Some sc) msg again with
        | Some e => e
        | None => newOpenAIError msg ty sc again
        end
    end.
Proof.
  intros Hm Ht Hs again.
  apply String.eqb_neq in Hm, Ht. apply Z.eqb_neq in Hs.
  assert (Em : errorMessage again = msg).
  { unfold errorMessage, orStr, orStrDefault, truthyStr, chain, again.
    cbn [message]. rewrite Hm. cbn [negb]. rewrite Hm. reflexivity. }
  assert (Et : errorType again = Some ty).
  { unfold errorType, orStr, truthyStr, chain, again.
    cbn [type]. rewrite Ht. reflexivity. }
  assert (Es : rawStatus again = Some sc) by reflexivity.
  unfold mapOpenAIError. rewrite Em, Et, Es.
  unfold orStrDefault, orNumDefault. rewrite Ht, Hs. reflexivity.
Qed.

(** X1. Classifying an error that is itself the result of a classification
    keeps its message and its status; it keeps its class as well, except
    that a generic error with status 500 comes back as a Server error. *)
Theorem mapOpenAIError_reclassified (err : option JsError) :
  let r := mapOpenAIError err in
  let r' := mapOpenAIError (Some (asJsError r)) in
  err_message r' = err_message r /\
  err_statusCode r' = err_statusCode r /\
  err_originalError r' = Some (asJsError r) /\
  (err_name r' = err_name r \/
   err_name r = NameOpenAIError /\ err_statusCode r = 500 /\
   err_name r' = NameOpenAIServerError).
Proof.
  intros r r'. pose proof (mapOpenAIError_classified err) as Hc.
  pose proof (errorMessage_nonempty err) as Hm.
  fold r in Hc. unfold r'. clearbody r.
  destruct Hc; unfold asJsError;
    cbn [err_message err_type err_statusCode
         OpenAIAuthenticationError OpenAIRateLimitError OpenAIQuotaError
         OpenAIValidationError OpenAINotFoundError OpenAITimeoutError
         OpenAIServerError newOpenAIError];
    rewrite mapOpenAIError_of_fields by (assumption || discriminate);
    try (cbv zeta; repeat split; left; reflexivity).
  cbv zeta.
  rewrite (mapByType_unrecognized (Some ty) _ _ H).
  destruct H2 as [Hlt | ->].
  - assert (Hs : mapByStatus (Some sc) (errorMessage err)
                   (Some (mkJsError (Some (errorMessage err)) (Some ty) None
                            (Some sc) None)) = None).
    { unfold mapByStatus.
      repeat match goal with
             | |- context [Z.eqb sc ?c] => destruct (Z.eqb_spec sc c); try lia
             | |- context [Z.leb ?a ?b] => destruct (Z.leb_spec a b); try lia
             | |- context [Z.ltb ?a ?b] => destruct (Z.ltb_spec a b); try lia
             end; reflexivity. }
    rewrite Hs. repeat split. left. reflexivity.
  - repeat split. right. repeat split.
Qed.

(** X2. A classified error never has an empty message, an empty type or the
    status 0; its status is one of 400, 401, 404, 408, 429 and 500, or the
    raw status when that is non-zero and below 400; and a non-empty message
    of the raw error is kept as it is. *)
Theorem mapOpenAIError_never_blank (err : option JsError) :
  let r := mapOpenAIError err in
  err_message r <> EmptyString /\
  err_type r <> EmptyString /\
  err_statusCode r <> 0 /\
  (In (err_statusCode r) [400; 401; 404; 408; 429; 500] \/
   err_statusCode r < 400 /\ rawStatus err = Some (err_statusCode r)) /\
  (forall m, chain err message = Some m -> m <> EmptyString ->
             err_message r = m).
Proof.
  intros r. pose proof (mapOpenAIError_classified err) as Hc. fold r in Hc.
  assert (Hmsg : err_message r = errorMessage err) by (destruct Hc; reflexivity).
  split; [rewrite Hmsg; apply errorMessage_nonempty|].
  split; [destruct Hc; try discriminate; assumption|].
  split; [destruct Hc; try discriminate; assumption|].
  split.
  - destruct Hc; simpl; try tauto.
    destruct H2 as [Hlt | ->]; [right | left; tauto].
    split; [exact Hlt | apply H3; exact Hlt].
  - intros m Hm Hne. rewrite Hmsg. unfold errorMessage, orStr, truthyStr.
    rewrite Hm. apply String.eqb_neq in Hne. rewrite Hne. simpl.
    rewrite Hne. reflexivity.
Qed.

Lemma mapOpenAIError_never_blank_witness :
  chain (Some vendor404) message = Some "No file found" /\
  err_message (mapOpenAIError (Some vendor404)) = "No file found".
Proof.
  split; [reflexivity|].
  destruct (mapOpenAIError_never_blank (Some vendor404)) as (_ & _ & _ & _ & H).
  apply H; [reflexivity | discriminate].
Defined.

(** X3. The error [handleError] throws always carries a [statusCode]: the
    raw status when that is present and non-zero, 500 otherwise; it wraps
    the raw error; and when it is raised by an operation under
    [retryOperation], a raw status below 500 makes the executor raise it
    after that one invocation, without a wait. *)
Theorem handleError_status_stops_retry
    (providerName operation : string) (err : option JsError) :
  let e := thrown (fst (handleError providerName operation err)) in
  statusCode e = Some (orNumDefault (rawStatus err) 500) /\
  (forall s, rawStatus err = Some s -> s <> 0 -> statusCode e = Some s) /\
  (truthyNum (rawStatus err) = false -> statusCode e = Some 500) /\
  originalError (fst (handleError providerName operation err)) = err /\
  (forall s maxRetries delayMs,
     rawStatus err = Some s -> s <> 0 -> s < 500 -> 1 <= maxRetries ->
     retryOperation (alwaysFails e) maxRetries delayMs =
       (Rejected (Some e), [EvOperation])).
Proof.
  intros e.
  assert (H1 : statusCode e = Some (orNumDefault (rawStatus err) 500)) by reflexivity.
  assert (H2 : forall s, rawStatus err = Some s -> s <> 0 -> statusCode e = Some s).
  { intros s Hs Hne. rewrite H1, Hs. unfold orNumDefault.
    apply Z.eqb_neq in Hne. rewrite Hne. reflexivity. }
  split; [exact H1|]. split; [exact H2|]. split; [|split; [reflexivity|]].
  - intros Hf. rewrite H1. unfold orNumDefault.
    destruct (rawStatus err) as [s|]; [|reflexivity].
    simpl in Hf. apply negb_false_iff in Hf. rewrite Hf. reflexivity.
  - intros s maxRetries delayMs Hs Hne Hlt Hm.
    apply retryOperation_client_error_once; [exact Hm | reflexivity |].
    apply isClientError_iff. exists s. split; [apply H2; assumption | lia].
Qed.

Lemma handleError_status_stops_retry_witness :
  rawStatus (Some vendor400) = Some 400 /\
  retryOperation
    (alwaysFails (thrown (fst (handleError "OpenAI" "createVectorStore"
                                 (Some vendor400))))) 3 1000 =
    (Rejected (Some (thrown (fst (handleError "OpenAI" "createVectorStore"
                                    (Some vendor400))))),
     [EvOperation]).
Proof.
  split; [reflexivity|].
  destruct (handleError_status_stops_retry "OpenAI" "createVectorStore"
              (Some vendor400)) as (_ & _ & _ & _ & H).
  apply (H 400); [reflexivity | lia | lia | lia].
Defined.

(* ===================================================================== *)
(** * Further properties of the retry executor *)
(* ===================================================================== *)

Lemma sleeps_app tr1 tr2 : sleeps (tr1 ++ tr2) = sleeps tr1 ++ sleeps tr2.
Proof.
  induction tr1 as [|ev tr1 IH]; [reflexivity|].
  destruct ev; simpl; rewrite IH; reflexivity.
Qed.

Lemma sleeps_actions tr : sleeps (actions tr) = sleeps tr.
Proof.
  induction tr as [|ev tr IH]; [reflexivity|].
  destruct ev; simpl; rewrite ?IH; reflexivity.
Qed.

Lemma sleeps_retriesFrom delayMs k : forall attempt,
  sleeps (retriesFrom delayMs k attempt) = backoff delayMs attempt (Z.of_nat k).
Proof.
  induction k as [|k IH]; intros attempt; [reflexivity|].
  cbn [retriesFrom sleeps]. rewrite IH. unfold backoff.
  rewrite (seqZ_cons attempt) by lia.
  replace (Z.succ attempt) with (attempt + 1) by lia.
  replace (Z.pred (Z.of_nat (S k))) with (Z.of_nat k) by lia.
  reflexivity.
Qed.

Lemma sleeps_retrySchedule delayMs k :
  sleeps (retrySchedule delayMs k) = backoff delayMs 1 (Z.of_nat (k - 1)).
Proof.
  destruct k as [|k]; [reflexivity|].
  cbn [retrySchedule sleeps]. rewrite sleeps_retriesFrom.
  replace (S k - 1)%nat with k by lia. reflexivity.
Qed.

Lemma invocations_app tr1 tr2 :
  invocations (tr1 ++ tr2) = (invocations tr1 + invocations tr2)%nat.
Proof. unfold invocations. rewrite List.filter_app, List.length_app. reflexivity. Qed.

Ltac trace_arith :=
  unfold invocations in *;
  cbn [List.filter isOperation length sleeps app snd fst] in *; lia.

Section RetryBounds.
Context {T : Type}.
Variable operation : Z -> Completion (option JsError) T.
Variables maxRetries delayMs : Z.

Lemma retryLoop_bounded n : forall attempt lastError,
  n = O \/ attempt + Z.of_nat n = maxRetries + 1 ->
  let tr := snd (retryLoop operation maxRetries delayMs n attempt lastError) in
  (invocations tr <= n)%nat /\
  (n <> O -> 1 <= invocations tr /\ length (sleeps tr) + 1 <= invocations tr)%nat /\
  Forall (fun ms => exists k, attempt <= k < maxRetries /\
                              ms = inject_Z (delayMs * k)) (sleeps tr).
Proof.
  induction n as [|n IH]; intros attempt lastError Hn.
  - cbn [retryLoop snd]. repeat split; [trace_arith | congruence | congruence | constructor].
  - destruct Hn as [Hn|Hn]; [discriminate|].
    cbn [retryLoop].
    destruct (operation attempt) as [v|[e|]];
      [cbn [snd]; repeat split; try trace_arith; constructor | |
       cbn [snd]; repeat split; try trace_arith; constructor].
    destruct (isClientError e);
      [cbn [snd]; repeat split; try trace_arith; constructor|].
    specialize (IH (attempt + 1) (Some e)).
    destruct (retryLoop operation maxRetries delayMs n (attempt + 1) (Some e))
      as [r tr] eqn:Erun.
    cbn [snd] in IH |- *.
    destruct n as [|n'].
    + assert (attempt = maxRetries) by lia. subst attempt.
      rewrite Z.ltb_irrefl. simpl in Erun. inversion Erun; subst.
      cbn [app]. repeat split; try trace_arith. constructor.
    + destruct IH as (Hi & Hs & Hf); [right; lia|].
      destruct (Hs ltac:(discriminate)) as [Hs1 Hs2].
      assert (Hlt : (attempt <? maxRetries) = true) by (apply Z.ltb_lt; lia).
      rewrite Hlt.
      change (EvOperation :: [EvLog Warn (retryMessage attempt maxRetries);
                              EvSleep (inject_Z (delayMs * attempt))] ++ tr)
        with ([EvOperation; EvLog Warn (retryMessage attempt maxRetries);
               EvSleep (inject_Z (delayMs * attempt))] ++ tr).
      rewrite invocations_app, sleeps_app, List.length_app.
      change (invocations [EvOperation; EvLog Warn (retryMessage attempt maxRetries);
                           EvSleep (inject_Z (delayMs * attempt))]) with 1%nat.
      cbn [sleeps length app].
      split; [lia|]. split; [intros _; lia|].
      constructor.
      * exists attempt. split; [lia | reflexivity].
      * eapply Forall_impl; [exact Hf|].
        intros ms (k & Hk & ->). exists k. split; [lia | reflexivity].
Qed.

(** Retryable failures are passed over, each with its wait. *)
Lemma retryLoop_skips m : forall n attempt lastError,
  (forall j, attempt <= j < attempt + Z.of_nat m -> failsRetryable (operation j)) ->
  attempt + Z.of_nat m <= maxRetries ->
  exists lastError',
    let run := retryLoop operation maxRetries delayMs (m + S n) attempt lastError in
    let run' := retryLoop operation maxRetries delayMs (S n)
                  (attempt + Z.of_nat m) lastError' in
    fst run = fst run' /\
    invocations (snd run) = (m + invocations (snd run'))%nat /\
    sleeps (snd run) = backoff delayMs attempt (Z.of_nat m) ++ sleeps (snd run').
Proof.
  induction m as [|m IH]; intros n attempt lastError Hfail Hle.
  - exists lastError. cbv zeta. rewrite Z.add_0_r. repeat split.
  - destruct (Hfail attempt ltac:(lia)) as (e & Hop & Hc).
    destruct (IH n (attempt + 1) (Some e)) as (last' & IH').
    { intros j Hj. apply Hfail. lia. }
    { lia. }
    exists last'. cbv zeta in IH' |- *.
    replace (attempt + Z.of_nat (S m)) with (attempt + 1 + Z.of_nat m) by lia.
    change (S m + S n)%nat with (S (m + S n)). cbn [retryLoop].
    rewrite Hop, Hc.
    assert (Hlt : (attempt <? maxRetries) = true) by (apply Z.ltb_lt; lia).
    rewrite Hlt.
    destruct (retryLoop operation maxRetries delayMs (m + S n) (attempt + 1) (Some e))
      as [r tr].
    cbn [fst snd] in IH' |- *. destruct IH' as (Hr & Hi & Hs).
    split; [exact Hr|]. split.
    + unfold invocations in *. cbn. rewrite Hi. reflexivity.
    + cbn [app sleeps]. rewrite Hs. unfold backoff.
      rewrite (seqZ_cons attempt) by lia.
      replace (Z.succ attempt) with (attempt + 1) by lia.
      replace (Z.pred (Z.of_nat (S m))) with (Z.of_nat m) by lia.
      reflexivity.
Qed.

(** The loop alternates invocations and waits, and ends on an invocation. *)
Lemma retryLoop_schedule n : forall attempt lastError,
  n <> O -> attempt + Z.of_nat n = maxRetries + 1 ->
  let tr := snd (retryLoop operation maxRetries delayMs n attempt lastError) in
  actions tr = EvOperation :: retriesFrom delayMs (invocations tr - 1) attempt.
Proof.
  induction n as [|n IH]; intros attempt lastError Hpos Hn; [congruence|].
  cbn [retryLoop].
  destruct (operation attempt) as [v|[e|]]; [reflexivity | | reflexivity].
  destruct (isClientError e); [reflexivity|].
  specialize (IH (attempt + 1) (Some e)).
  pose proof (retryLoop_bounded n (attempt + 1) (Some e)) as Hb.
  destruct (retryLoop operation maxRetries delayMs n (attempt + 1) (Some e))
    as [r tr] eqn:Erun.
  cbn [snd] in IH, Hb |- *.
  destruct n as [|n'].
  - assert (attempt = maxRetries) by lia. subst attempt.
    rewrite Z.ltb_irrefl. simpl in Erun. inversion Erun; subst. reflexivity.
  - specialize (IH ltac:(discriminate) ltac:(lia)).
    destruct Hb as (_ & Hone & _); [right; lia|].
    destruct (Hone ltac:(discriminate)) as [Hone' _].
    assert (Hlt : (attempt <? maxRetries) = true) by (apply Z.ltb_lt; lia).
    rewrite Hlt. cbn [app actions]. rewrite IH.
    change (invocations (EvOperation :: EvLog Warn (retryMessage attempt maxRetries)
              :: EvSleep (inject_Z (delayMs * attempt)) :: tr))
      with (S (invocations tr)).
    replace (S (invocations tr) - 1)%nat with (S (invocations tr - 1)) by lia.
    reflexivity.
Qed.
End RetryBounds.

(** X4. Whatever the operation does, the executor invokes it at most
    [maxRetries] times and at least once when [maxRetries] is at least 1; it
    waits only between invocations, never before the first or after the last
    one: apart from its log entries the run is the first invocation, then
    for each further invocation [j + 1] a wait of [delayMs * j] followed by
    that invocation, and nothing else; so there is one wait fewer than
    invocations, and every wait is [delayMs] times the number of an attempt
    before the last. *)
Theorem retryOperation_bounded
    (T : Type) (operation : Z -> Completion (option JsError) T)
    (maxRetries delayMs : Z) :
  let tr := snd (retryOperation operation maxRetries delayMs) in
  (invocations tr <= Z.to_nat maxRetries)%nat /\
  (length (sleeps tr) <= invocations tr - 1)%nat /\
  Forall (fun ms => exists k, 1 <= k < maxRetries /\
                              ms = inject_Z (delayMs * k)) (sleeps tr) /\
  (Z.to_nat maxRetries <> O -> (1 <= invocations tr)%nat) /\
  actions tr = retrySchedule delayMs (invocations tr) /\
  sleeps tr = backoff delayMs 1 (Z.of_nat (invocations tr - 1)).
Proof.
  intros tr. unfold tr, retryOperation.
  destruct (retryLoop_bounded operation maxRetries delayMs (Z.to_nat maxRetries) 1 None)
    as (Hi & Hs & Hf).
  { destruct (Z.to_nat maxRetries) eqn:E; [left; reflexivity | right; lia]. }
  cbv zeta in Hi, Hs, Hf.
  assert (Hsched :
    actions (snd (retryLoop operation maxRetries delayMs (Z.to_nat maxRetries) 1 None)) =
    retrySchedule delayMs
      (invocations (snd (retryLoop operation maxRetries delayMs
                           (Z.to_nat maxRetries) 1 None)))).
  { destruct (Z.to_nat maxRetries) as [|n] eqn:E; [reflexivity|].
    destruct (Hs ltac:(discriminate)) as [Hone _].
    rewrite (retryLoop_schedule operation maxRetries delayMs (S n) 1 None)
      by (discriminate || lia).
    destruct (invocations (snd (retryLoop operation maxRetries delayMs (S n) 1 None)))
      as [|k]; [lia|].
    cbn [retrySchedule]. replace (S k - 1)%nat with k by lia. reflexivity. }
  split; [exact Hi|]. split; [|split; [exact Hf | split; [intros H; apply Hs; exact H|]]].
  - destruct (Nat.eq_dec (Z.to_nat maxRetries) O) as [E|E].
    + rewrite E. cbn [retryLoop snd sleeps length]. lia.
    + destruct (Hs E). lia.
  - split; [exact Hsched|].
    rewrite <- sleeps_actions, Hsched.
    apply sleeps_retrySchedule.
Qed.

(** X5. When the attempts before attempt [k] all fail with errors the guard
    lets pass and attempt [k] does not, the operation is invoked exactly [k]
    times, the waits are [delayMs * 1], ..., [delayMs * (k - 1)], and the
    run ends as attempt [k] does: with its value, with its error, or with a
    TypeError when it rejected with [undefined]. *)
Theorem retryOperation_decided_at
    (T : Type) (operation : Z -> Completion (option JsError) T)
    (maxRetries delayMs k : Z) :
  1 <= k <= maxRetries ->
  (forall j, 1 <= j < k -> failsRetryable (operation j)) ->
  ~ failsRetryable (operation k) ->
  let run := retryOperation operation maxRetries delayMs in
  invocations (snd run) = Z.to_nat k /\
  sleeps (snd run) = backoff delayMs 1 (k - 1) /\
  fst run = match operation k with
            | Rejected None => Rejected (Some (typeErrorReading "statusCode"))
            | outcome => outcome
            end.
Proof.
  intros Hk Hfail Hdec run. unfold run, retryOperation.
  destruct (retryLoop_skips operation maxRetries delayMs (Z.to_nat (k - 1))
              (Z.to_nat (maxRetries - k)) 1 None) as (last' & Hr & Hi & Hs).
  { intros j Hj. apply Hfail. lia. }
  { lia. }
  cbv zeta in Hr, Hi, Hs.
  replace (Z.to_nat (k - 1) + S (Z.to_nat (maxRetries - k)))%nat
    with (Z.to_nat maxRetries) in * by lia.
  replace (1 + Z.of_nat (Z.to_nat (k - 1))) with k in * by lia.
  replace (Z.of_nat (Z.to_nat (k - 1))) with (k - 1) in * by lia.
  rewrite Hr, Hi, Hs. cbn [retryLoop].
  destruct (operation k) as [v|[e|]] eqn:Hop.
  - cbn. rewrite app_nil_r. repeat split. lia.
  - destruct (isClientError e) eqn:Hc.
    + cbn. rewrite app_nil_r. repeat split. lia.
    + exfalso. apply Hdec. exists e. split; [reflexivity | exact Hc].
  - cbn. rewrite app_nil_r. repeat split. lia.
Qed.

Lemma retryOperation_decided_at_witness :
  invocations (snd (retryOperation
     (fun k => if k <? 3 then Rejected (Some vendor500) else Fulfilled tt) 5 200)) = 3%nat /\
  fst (retryOperation
     (fun k => if k <? 3 then Rejected (Some vendor500) else Fulfilled tt) 5 200)
    = Fulfilled tt.
Proof.
  destruct (retryOperation_decided_at unit
              (fun k => if k <? 3 then Rejected (Some vendor500) else Fulfilled tt)
              5 200 3) as (Hi & _ & Hr).
  - lia.
  - intros j Hj. exists vendor500.
    assert (Hlt : (j <? 3) = true) by (apply Z.ltb_lt; lia).
    rewrite Hlt. split; reflexivity.
  - intros (e & He & _). discriminate He.
  - split; [exact Hi | exact Hr].
Defined.

Lemma totalWait_sleeps tr : totalWait tr = List.fold_right Qplus 0%Q (sleeps tr).
Proof.
  induction tr as [|ev tr IH]; [reflexivity|].
  destruct ev; simpl; rewrite ?IH; reflexivity.
Qed.

Lemma backoff_total delayMs (m : nat) :
  List.fold_right Qplus 0%Q (backoff delayMs 1 (Z.of_nat m)) =
    inject_Z (delayMs * (Z.of_nat m * (Z.of_nat m + 1) / 2)).
Proof.
  assert (H : forall a (l : list Z),
             List.fold_right Qplus (inject_Z a)
               (List.map (fun k => inject_Z (delayMs * k)) l) =
             inject_Z (delayMs * List.fold_right Z.add 0 l + a)).
  { intros a l. induction l as [|x l IH]; simpl.
    - f_equal. lia.
    - rewrite IH, <- inject_Z_plus. f_equal. lia. }
  assert (Hsum : forall n : nat,
             2 * List.fold_right Z.add 0 (seqZ 1 (Z.of_nat n)) =
             Z.of_nat n * (Z.of_nat n + 1)).
  { induction n as [|n IHn]; [reflexivity|].
    rewrite seqZ_S, List.fold_right_app. simpl.
    assert (Hacc : forall (l : list Z) a,
               List.fold_right Z.add a l = List.fold_right Z.add 0 l + a).
    { induction l as [|x l IHl]; intros a; simpl; [lia|]. rewrite IHl. lia. }
    rewrite Hacc. lia. }
  unfold backoff. change 0%Q with (inject_Z 0). rewrite H. f_equal.
  specialize (Hsum m).
  rewrite Z.add_0_r. f_equal.
  apply Z.div_unique_exact; lia.
Qed.

(** X6. When every attempt fails with an error the guard lets pass, the
    operation is invoked exactly [maxRetries] times, the error of the last
    attempt is raised, the waits are [delayMs * 1], ...,
    [delayMs * (maxRetries - 1)], and they add up to
    [delayMs * maxRetries * (maxRetries - 1) / 2] milliseconds. *)
Theorem retryOperation_exhausted
    (T : Type) (operation : Z -> Completion (option JsError) T)
    (maxRetries delayMs : Z) :
  1 <= maxRetries ->
  (forall k, failsRetryable (operation k)) ->
  let run := retryOperation operation maxRetries delayMs in
  fst run = operation maxRetries /\
  invocations (snd run) = Z.to_nat maxRetries /\
  sleeps (snd run) = backoff delayMs 1 (maxRetries - 1) /\
  totalWait (snd run) =
    inject_Z (delayMs * ((maxRetries - 1) * maxRetries / 2)).
Proof.
  intros Hm Hall run.
  destruct (retryLoop_exhausts operation maxRetries delayMs
              (Z.to_nat maxRetries) 1 None Hall ltac:(lia)) as (Hr & Hi & Hs).
  cbv zeta in Hr, Hi, Hs. fold (retryOperation operation maxRetries delayMs) in *.
  fold run in Hr, Hi, Hs.
  assert (Hs' : sleeps (snd run) = backoff delayMs 1 (maxRetries - 1)).
  { rewrite Hs. unfold backoff. do 2 f_equal. lia. }
  split.
  - rewrite Hr. destruct (Z.to_nat maxRetries) eqn:E; [lia | reflexivity].
  - split; [exact Hi|]. split; [exact Hs'|].
    rewrite totalWait_sleeps, Hs'.
    replace (maxRetries - 1) with (Z.of_nat (Z.to_nat (maxRetries - 1))) at 1 by lia.
    rewrite backoff_total. rewrite Z2Nat.id by lia.
    replace (maxRetries - 1 + 1) with maxRetries by lia. reflexivity.
Qed.

Lemma retryOperation_exhausted_witness :
  (forall k, failsRetryable (alwaysFails vendor500 k)) /\
  totalWait (snd (retryOperation (alwaysFails vendor500) 5 1000)) = 10000%Q.
Proof.
  assert (H : forall k, failsRetryable (alwaysFails vendor500 k)).
  { intros k. exists vendor500. split; reflexivity. }
  split; [exact H|].
  destruct (retryOperation_exhausted unit (alwaysFails vendor500) 5 1000
              ltac:(lia) H) as (_ & _ & _ & Ht).
  exact Ht.
Defined.

(* ===================================================================== *)
(** * Further properties of the config manager *)
(* ===================================================================== *)

(** X11. The validator accepts a partial config exactly when reading its
    credential gives a text that begins with sk- and is longer than 20
    characters; the accepted config keeps the credential, takes every option
    the given object has, also when that option holds [undefined], and takes
    the documented default for each option the object lacks; every refusal
    is a Configuration error with status 500. *)
Theorem validateAndMergeConfig_accepts_iff (p : PartialConfig) :
  ((exists c, validateAndMergeConfig p = Fulfilled c) <->
   (exists key, read (p_apiKey p) = Some key /\ isValidApiKey key = true)) /\
  (forall c, validateAndMergeConfig p = Fulfilled c ->
     read (p_apiKey p) = Some (apiKey c) /\
     organization c = read (p_organization p) /\
     baseURL c = givenOr (Some "https://api.openai.com/v1") (p_baseURL p) /\
     timeout c = givenOr (Some 60000) (p_timeout p) /\
     maxRetries c = givenOr (Some 3) (p_maxRetries p) /\
     defaultHeaders c =
       givenOr (Some [("OpenAI-Beta", "assistants=v2")]) (p_defaultHeaders p)) /\
  (forall e, validateAndMergeConfig p = Rejected e ->
     classifiedAs e NameOpenAIConfigurationError 500).
Proof.
  pose proof (validateAndMergeConfig_cases p) as H.
  destruct (read (p_apiKey p)) as [key|] eqn:Hkey.
  - destruct (isValidApiKey key) eqn:Hv.
    + rewrite H. split; [|split].
      * split; [intros _; exists key; split; [reflexivity | exact Hv]
               | intros _; eexists; reflexivity].
      * intros c Hc. inversion Hc; subst c. cbn.
        destruct (p_organization p), (p_baseURL p), (p_timeout p),
          (p_maxRetries p), (p_defaultHeaders p); repeat split.
      * discriminate.
    + destruct H as [msg H]. rewrite H. split; [|split].
      * split; [intros [c Hc]; discriminate Hc|].
        intros (k & Hk & Hvk). inversion Hk; subst k. congruence.
      * discriminate.
      * intros e He. inversion He; subst e. split; reflexivity.
  - destruct H as [msg H]. rewrite H. split; [|split].
    + split; [intros [c Hc]; discriminate Hc | intros (k & Hk & _); discriminate Hk].
    + discriminate.
    + intros e He. inversion He; subst e. split; reflexivity.
Qed.

Lemma validateAndMergeConfig_accepts_iff_witness :
  exists c,
    validateAndMergeConfig
      (mkPartialConfig (Holds (Some sampleKey)) Absent Absent (Holds None)
                       Absent Absent) = Fulfilled c /\
    maxRetries c = Some 3 /\ timeout c = None.
Proof.
  destruct (validateAndMergeConfig_accepts_iff
              (mkPartialConfig (Holds (Some sampleKey)) Absent Absent (Holds None)
                               Absent Absent))
    as ([_ Hacc] & Hc & _).
  destruct Hacc as [c Hcfg]; [exists sampleKey; split; reflexivity|].
  exists c. split; [exact Hcfg|].
  destruct (Hc c Hcfg) as (_ & _ & _ & Ht & Hm & _). split; assumption.
Defined.

(** X12. For a manager whose config was accepted by the validator:
    [updateConfig] with the empty object leaves the config as it is; with
    updates whose [apiKey] property holds [undefined] or a text the
    validator refuses it throws a Configuration error and leaves the config
    as it is; with updates that have no [apiKey] property it succeeds and
    keeps the credential, with updates whose [apiKey] holds a text of the
    accepted shape it succeeds and takes that credential, and in both cases
    the new config takes every option the updates have, also when it holds
    [undefined], and keeps the others. *)
Theorem updateConfig_accepted (p : PartialConfig) (c : OpenAIProviderConfig) :
  validateAndMergeConfig p = Fulfilled c ->
  updateConfig c noUpdates = (Fulfilled tt, c) /\
  (forall updates,
     p_apiKey updates = Holds None \/
     (exists key, p_apiKey updates = Holds (Some key) /\
                  isValidApiKey key = false) ->
     exists e, updateConfig c updates = (Rejected e, c) /\
               classifiedAs e NameOpenAIConfigurationError 500) /\
  (forall updates,
     p_apiKey updates = Absent \/
     (exists key, p_apiKey updates = Holds (Some key) /\
                  isValidApiKey key = true) ->
     exists c', updateConfig c updates = (Fulfilled tt, c') /\
       apiKey c' = default (apiKey c) (read (p_apiKey updates)) /\
       organization c' = givenOr (organization c) (p_organization updates) /\
       baseURL c' = givenOr (baseURL c) (p_baseURL updates) /\
       timeout c' = givenOr (timeout c) (p_timeout updates) /\
       maxRetries c' = givenOr (maxRetries c) (p_maxRetries updates) /\
       defaultHeaders c' =
         givenOr (defaultHeaders c) (p_defaultHeaders updates)).
Proof.
  intros Hacc.
  destruct (validateAndMergeConfig_key p c Hacc) as (_ & Hv & _).
  split; [|split].
  - unfold updateConfig.
    pose proof (validateAndMergeConfig_cases
                  (spreadPartial (toPartial c) noUpdates)) as H.
    cbn in H. rewrite Hv in H. rewrite H. destruct c; reflexivity.
  - intros updates Hbad. unfold updateConfig.
    match goal with |- context [validateAndMergeConfig ?q] =>
      pose proof (validateAndMergeConfig_cases q) as H end.
    cbn in H.
    destruct Hbad as [Hk | (key & Hk & Hvk)]; rewrite Hk in H; cbn in H;
      [|rewrite Hvk in H];
      destruct H as [msg H]; rewrite H; eexists;
      (split; [reflexivity | split; reflexivity]).
  - intros updates Hok. unfold updateConfig.
    match goal with |- context [validateAndMergeConfig ?q] =>
      pose proof (validateAndMergeConfig_cases q) as H end.
    cbn in H.
    destruct Hok as [Hk | (key & Hk & Hvk)]; rewrite Hk in H; cbn in H;
      [rewrite Hv in H | rewrite Hvk in H];
      rewrite H, Hk; eexists; (split; [reflexivity|]); cbn;
      destruct (p_organization updates), (p_baseURL updates),
        (p_timeout updates), (p_maxRetries updates),
        (p_defaultHeaders updates); repeat split.
Qed.

Lemma updateConfig_accepted_witness :
  exists c,
    validateAndMergeConfig (factoryConfig sampleKey None) = Fulfilled c /\
    updateConfig c noUpdates = (Fulfilled tt, c) /\
    snd (updateConfig c (factoryConfig "not-a-key" None)) = c /\
    timeout (snd (updateConfig c
                    (mkPartialConfig Absent Absent Absent (Holds None)
                                     Absent Absent))) = None.
Proof.
  eexists. split; [reflexivity|].
  destruct (updateConfig_accepted (factoryConfig sampleKey None) _ eq_refl)
    as (H1 & H2 & H3).
  split; [exact H1|]. split.
  - destruct (H2 (factoryConfig "not-a-key" None)) as (e & He & _).
    { right. exists "not-a-key". split; reflexivity. }
    rewrite He. reflexivity.
  - destruct (H3 (mkPartialConfig Absent Absent Absent (Holds None)
                                  Absent Absent)) as (c' & Hc' & _ & _ & _ & Ht & _).
    { left. reflexivity. }
    rewrite Hc'. exact Ht.
Defined.

(** X13. A config the validator accepted passes [validate()] unless the
    given object has a [baseURL] that holds [undefined] or the empty text, a
    [timeout] that holds [undefined] or 0, or a [maxRetries] that holds
    [undefined]. *)
Theorem validate_accepted (p : PartialConfig) (c : OpenAIProviderConfig) :
  validateAndMergeConfig p = Fulfilled c ->
  (validate c = true <->
   (p_baseURL p <> Holds None /\ p_baseURL p <> Holds (Some EmptyString)) /\
   (p_timeout p <> Holds None /\ p_timeout p <> Holds (Some 0)) /\
   p_maxRetries p <> Holds None).
Proof.
  intros Hacc.
  destruct (validateAndMergeConfig_key p c Hacc) as (_ & Hv & Hc).
  rewrite Hc. unfold validate. cbn [mergeWithDefaults apiKey baseURL timeout maxRetries].
  rewrite (isValidApiKey_nonempty _ Hv). cbn.
  destruct (p_maxRetries p) as [|[m|]]; destruct (p_baseURL p) as [|[u|]];
    destruct (p_timeout p) as [|[t|]]; cbn;
    try destruct (String.eqb_spec u EmptyString);
    try destruct (Z.eqb_spec t 0); subst; cbn;
    (split; [intros H; try discriminate H; repeat split; congruence
            | intros ([H1 H2] & [H3 H4] & H5); try reflexivity; congruence]).
Qed.

Lemma validate_accepted_witness :
  exists c,
    validateAndMergeConfig (factoryConfig sampleKey None) = Fulfilled c /\
    validate c = true.
Proof.
  eexists. split; [reflexivity|].
  apply (validate_accepted (factoryConfig sampleKey None) _ eq_refl).
  repeat split; discriminate.
Defined.

(** X14. For the config the factory builds from a credential and an
    optional organization, the request headers are the bearer credential,
    the JSON content type and the beta header, in this order, followed by
    the organization header exactly when the organization is not empty. *)
Theorem getHeaders_factory_config
    (key : string) (org : option string) (c : OpenAIProviderConfig) :
  validateAndMergeConfig (factoryConfig key org) = Fulfilled c ->
  getHeaders c =
    [("Authorization", "Bearer " +:+ key);
     ("Content-Type", "application/json");
     ("OpenAI-Beta", "assistants=v2")]
    ++ match org with
       | Some o => if String.eqb o EmptyString then []
                   else [("OpenAI-Organization", o)]
       | None => []
       end.
Proof.
  intros Hacc.
  pose proof (validateAndMergeConfig_cases (factoryConfig key org)) as Hp.
  cbn in Hp. destruct (isValidApiKey key); [|destruct Hp as [? Hp]; congruence].
  rewrite Hp in Hacc. inversion Hacc; subst c.
  unfold getHeaders, truthyStr. cbn.
  destruct org as [o|]; [|reflexivity].
  destruct (String.eqb o EmptyString); reflexivity.
Qed.

Lemma getHeaders_factory_config_witness :
  exists c,
    validateAndMergeConfig (factoryConfig sampleKey (Some "org-1")) = Fulfilled c /\
    getHeader "OpenAI-Organization" (getHeaders c) = Some "org-1".
Proof.
  eexists. split; [reflexivity|].
  rewrite (getHeaders_factory_config sampleKey (Some "org-1") _ eq_refl).
  reflexivity.
Defined.

(* ===================================================================== *)
(** * Further properties of the singleton and of the factory *)
(* ===================================================================== *)

Lemma getInstance_valid st key org :
  instance st = None -> isValidApiKey key = true ->
  exists merged,
    validateAndMergeConfig (factoryConfig key org) = Fulfilled merged /\
    getInstance (Some (factoryConfig key org)) st =
      (Fulfilled (mkInstance (nextRef st) "OpenAI" true merged),
       mkStatics (Some (mkInstance (nextRef st) "OpenAI" true merged))
                 (providers st) (S (nextRef st)),
       [EvNewClient; EvLog Info "OpenAI Provider inicializado correctamente"]).
Proof.
  intros Hinst Hv.
  pose proof (validateAndMergeConfig_cases (factoryConfig key org)) as Hp.
  cbn in Hp. rewrite Hv in Hp.
  eexists. split; [exact Hp|].
  unfold getInstance, construct. rewrite Hinst, Hp. reflexivity.
Qed.

(** X15. The singleton: with no instance yet, [getInstance] with a config the
    validator accepts constructs one whose identity is the next free one;
    from then on every call returns that same instance and changes nothing,
    whatever config it is given, an invalid one or none at all; a config the
    validator refuses leaves the state without an instance; and after
    [resetInstance] the next instance has another identity. *)
Theorem getInstance_singleton (st : Statics) (key : string) (org : option string) :
  instance st = None ->
  isValidApiKey key = true ->
  exists inst st',
    fst (fst (getInstance (Some (factoryConfig key org)) st)) = Fulfilled inst /\
    snd (fst (getInstance (Some (factoryConfig key org)) st)) = st' /\
    ref inst = nextRef st /\ isReady inst = true /\
    instance st' = Some inst /\
    (forall cfg, getInstance cfg st' = (Fulfilled inst, st', [])) /\
    (forall bad, isValidApiKey bad = false ->
       exists e, fst (fst (getInstance (Some (factoryConfig bad org)) st)) = Rejected e /\
                 snd (fst (getInstance (Some (factoryConfig bad org)) st)) = st) /\
    (exists e, getInstance None st = (Rejected e, st, []) /\
               classifiedAs e NameOpenAIConfigurationError 500) /\
    (exists inst2,
       fst (fst (getInstance (Some (factoryConfig key org)) (resetInstance st')))
         = Fulfilled inst2 /\ ref inst2 <> ref inst).
Proof.
  intros Hinst Hv.
  destruct (getInstance_valid st key org Hinst Hv) as (merged & Hm & Hget).
  rewrite Hget. cbn [fst snd].
  eexists. eexists. split; [reflexivity|]. split; [reflexivity|].
  split; [reflexivity|]. split; [reflexivity|]. split; [reflexivity|].
  split; [|split; [|split]].
  - intros cfg. reflexivity.
  - intros bad Hbad.
    pose proof (validateAndMergeConfig_cases (factoryConfig bad org)) as Hp.
    cbn in Hp. rewrite Hbad in Hp. destruct Hp as [msg Hp].
    unfold getInstance, construct. rewrite Hinst, Hp.
    eexists. split; reflexivity.
  - unfold getInstance. rewrite Hinst. eexists.
    split; [reflexivity | split; reflexivity].
  - destruct (getInstance_valid
                (resetInstance
                   (mkStatics (Some (mkInstance (nextRef st) "OpenAI" true merged))
                      (providers st) (S (nextRef st))))
                key org eq_refl Hv) as (merged2 & _ & Hget2).
    rewrite Hget2. eexists. split; [reflexivity|]. cbn. lia.
Qed.

Lemma getInstance_singleton_witness :
  exists inst st',
    getInstance (Some (factoryConfig sampleKey None)) initial =
      (Fulfilled inst, st',
       [EvNewClient; EvLog Info "OpenAI Provider inicializado correctamente"]) /\
    getInstance None st' = (Fulfilled inst, st', []).
Proof.
  destruct (getInstance_singleton initial sampleKey None eq_refl eq_refl)
    as (inst & st' & H1 & H2 & _ & _ & _ & Hsame & _).
  exists inst, st'. split; [|apply Hsame].
  cbn in H1, H2. inversion H1; subst inst. subst st'. reflexivity.
Defined.

Section FactoryInvariant.
Variable openaiConfig : EnvConfig.

Lemma consistent_no_instance st type :
  consistent st -> instance st = None -> providers st !! type = None.
Proof.
  intros [Hreg _] Hinst. destruct (providers st !! type) as [p|] eqn:Hp; [|reflexivity].
  destruct (Hreg type p Hp) as [_ H]. congruence.
Qed.

(** What [createOpenAIProvider] does in a consistent state. *)
Lemma createOpenAIProvider_consistent st :
  consistent st ->
  exists result st' evs,
    createOpenAIProvider openaiConfig st = (Fulfilled result, st', evs) /\
    providers st' = providers st /\
    (nextRef st <= nextRef st')%nat /\
    (forall p, result = Some p ->
       instance st' = Some p /\ isReady p = true /\ providerName p = "OpenAI" /\
       (ref p < nextRef st')%nat /\
       (instance st = None -> ref p = nextRef st /\ In EvNewClient evs)) /\
    (result = None -> st' = st /\ credentialUnusable openaiConfig) /\
    (credentialUsable openaiConfig -> result <> None).
Proof.
  intros [Hreg Hinst]. unfold createOpenAIProvider.
  destruct (truthyStr (env_apiKey openaiConfig)) eqn:Ht; cbn [negb].
  2:{ do 3 eexists. split; [reflexivity|]. split; [reflexivity|]. split; [lia|].
      split; [discriminate|]. split; [intros _; split; [reflexivity | left; exact Ht]|].
      intros (key & Hk & Hv) _. unfold truthyStr in Ht. rewrite Hk in Ht.
      rewrite (isValidApiKey_nonempty key Hv) in Ht. discriminate Ht. }
  destruct (env_apiKey openaiConfig) as [key|] eqn:Hkey; [|discriminate Ht].
  change (mkPartialConfig (Holds (Some key)) (Holds (env_organization openaiConfig))
            Absent Absent Absent Absent)
    with (factoryConfig key (env_organization openaiConfig)).
  destruct (instance st) as [inst|] eqn:Hi.
  - unfold getInstance. rewrite Hi.
    destruct (Hinst inst eq_refl) as (Hr & Hn & Hlt).
    do 3 eexists. split; [reflexivity|]. split; [reflexivity|]. split; [lia|].
    split; [|split; [discriminate | discriminate]].
    intros p Hp. inversion Hp; subst p.
    repeat split; try assumption; discriminate.
  - destruct (isValidApiKey key) eqn:Hv.
    + destruct (getInstance_valid st key (env_organization openaiConfig) Hi Hv)
        as (merged & _ & Hget).
      rewrite Hget. do 3 eexists. split; [reflexivity|].
      split; [reflexivity|]. split; [cbn; lia|].
      split; [|split; [discriminate | discriminate]].
      intros p Hp. inversion Hp; subst p. cbn.
      repeat split; try lia. left. reflexivity.
    + pose proof (validateAndMergeConfig_cases
                    (factoryConfig key (env_organization openaiConfig))) as Hp.
      cbn in Hp. rewrite Hv in Hp. destruct Hp as [msg Hp].
      unfold getInstance, construct. rewrite Hi, Hp.
      do 3 eexists. split; [reflexivity|]. split; [reflexivity|]. split; [lia|].
      split; [discriminate|].
      split; [intros _; split; [reflexivity | right; exists key; split; [exact Hkey | exact Hv]]|].
      intros (k & Hk & Hvk) _. rewrite Hkey in Hk. inversion Hk; subst k. congruence.
Qed.

(** What [getProvider] does in a consistent state. *)
Lemma getProvider_consistent type st :
  consistent st ->
  exists result st' evs,
    getProvider openaiConfig type st = (Fulfilled result, st', evs) /\
    consistent st' /\
    (nextRef st <= nextRef st')%nat /\
    (forall p, result = Some p ->
       type = OPENAI /\ providers st' !! type = Some p /\ instance st' = Some p /\
       isReady p = true /\ (ref p < nextRef st')%nat /\
       (instance st = None -> ref p = nextRef st /\ In EvNewClient evs)) /\
    (result = None -> st' = st) /\
    (type = OPENAI -> credentialUsable openaiConfig -> result <> None) /\
    (type <> OPENAI ->
       result = None /\
       evs = [EvLog ErrorLevel ("Tipo de proveedor no soportado: " +:+ type)]).
Proof.
  intros Hcons. pose proof Hcons as [Hreg Hinst]. unfold getProvider.
  destruct (providers st !! type) as [p|] eqn:Hlook.
  - destruct (Hreg type p Hlook) as [Htype Hp].
    destruct (Hinst p Hp) as (Hr & Hn & Hlt).
    do 3 eexists. split; [reflexivity|]. split; [exact Hcons|]. split; [lia|].
    split; [|split; [discriminate | split; [discriminate | contradiction]]].
    intros q Hq. inversion Hq; subst q.
    repeat split; try assumption; congruence.
  - destruct (String.eqb_spec type OPENAI) as [Htype|Htype].
    2:{ do 3 eexists. split; [reflexivity|]. split; [exact Hcons|]. split; [lia|].
        split; [discriminate|]. split; [reflexivity|].
        split; [contradiction | split; reflexivity]. }
    destruct (createOpenAIProvider_consistent st Hcons)
      as (result & st' & evs & Hcreate & Hprov & Hnext & Hsome & Hnone & Husable).
    rewrite Hcreate. destruct result as [p|].
    + destruct (Hsome p eq_refl) as (Hi & Hr & Hn & Hlt & Hfresh).
      rewrite Hr. do 3 eexists. split; [reflexivity|].
      split; [|split; [exact Hnext|]].
      * split; cbn [instance providers nextRef].
        -- intros t q Hq. destruct (String.eqb_spec type t) as [<-|Hne].
           ++ rewrite lookup_insert_eq in Hq. inversion Hq; subst q.
              split; [exact Htype | exact Hi].
           ++ rewrite lookup_insert_ne in Hq by exact Hne.
              rewrite Hprov in Hq. destruct (Hreg t q Hq) as [Ht Hq'].
              split; [exact Ht|].
              destruct (instance st) as [old|] eqn:Hold; [|discriminate Hq'].
              unfold createOpenAIProvider in Hcreate.
              subst t. congruence.
        -- intros q Hq. rewrite Hi in Hq. inversion Hq; subst q.
           repeat split; assumption.
      * split; [|split; [discriminate | split; [intros _ _; discriminate | contradiction]]].
        intros q Hq. inversion Hq; subst q. cbn [instance providers nextRef].
        rewrite lookup_insert_eq.
        repeat split; try assumption.
        -- apply Hfresh; assumption.
        -- apply in_or_app. left. apply Hfresh. assumption.
    + destruct (Hnone eq_refl) as [-> Hbad].
      do 3 eexists. split; [reflexivity|]. split; [exact Hcons|]. split; [lia|].
      split; [discriminate|]. split; [reflexivity|].
      split; [intros _ Hu; exact (Husable Hu) | contradiction].
Qed.

Lemma getProvider_usable st :
  credentialUsable openaiConfig -> consistent st ->
  exists p st' evs,
    getProvider openaiConfig OPENAI st = (Fulfilled (Some p), st', evs) /\
    isReady p = true /\
    providers st' !! OPENAI = Some p /\
    instance st' = Some p /\
    consistent st' /\
    (instance st = None -> ref p = nextRef st /\ In EvNewClient evs).
Proof.
  intros Husable Hcons.
  destruct (getProvider_consistent OPENAI st Hcons)
    as (result & st' & evs & Hget & Hc' & _ & Hsome & _ & Hu & _).
  destruct result as [p|]; [|exfalso; exact (Hu eq_refl Husable eq_refl)].
  destruct (Hsome p eq_refl) as (_ & Hp & Hi & Hr & _ & Hfresh).
  exists p, st', evs.
  split; [exact Hget|]. split; [exact Hr|]. split; [exact Hp|].
  split; [exact Hi|]. split; [exact Hc' | exact Hfresh].
Qed.

Lemma resetAll_consistent st : consistent (fst (resetAll st)).
Proof.
  split; cbn.
  - intros type p Hp. rewrite lookup_empty in Hp. discriminate Hp.
  - discriminate.
Qed.

Lemma reachable_is_consistent st : reachable openaiConfig st -> consistent st.
Proof.
  induction 1 as [|type st Hreach IH|st Hreach IH].
  - split; cbn; [intros type p Hp; rewrite lookup_empty in Hp|]; discriminate.
  - destruct (getProvider_consistent type st IH) as (r & st' & evs & -> & H & _).
    exact H.
  - apply resetAll_consistent.
Qed.
End FactoryInvariant.

(** X16. In every state the factory can be in, the registry and the
    singleton agree: a provider is registered only under the type openai,
    the registered provider is the singleton instance, and it is ready; so
    [getProvidersInfo] lists at most that one type, with the name OpenAI and
    ready. *)
Theorem reachable_registry_consistent
    (openaiConfig : EnvConfig) (st : Statics) :
  reachable openaiConfig st ->
  (forall type p, providers st !! type = Some p ->
     type = OPENAI /\ instance st = Some p /\ isReady p = true) /\
  (forall type info, getProvidersInfo st !! type = Some info ->
     type = OPENAI /\ info = ("OpenAI", true)).
Proof.
  intros Hreach.
  destruct (reachable_is_consistent openaiConfig st Hreach) as [Hreg Hinst].
  split.
  - intros type p Hp. destruct (Hreg type p Hp) as [Ht Hi].
    destruct (Hinst p Hi) as (Hr & _). repeat split; assumption.
  - intros type info Hinfo. unfold getProvidersInfo in Hinfo.
    rewrite lookup_fmap in Hinfo.
    destruct (providers st !! type) as [p|] eqn:Hp; [|discriminate Hinfo].
    destruct (Hreg type p Hp) as [Ht Hi].
    destruct (Hinst p Hi) as (Hr & Hn & _).
    cbn in Hinfo. inversion Hinfo. rewrite Hr, Hn. split; [exact Ht | reflexivity].
Qed.

Lemma reachable_registry_consistent_witness :
  reachable envValidKey (snd (fst (getProvider envValidKey OPENAI initial))) /\
  forall type info,
    getProvidersInfo (snd (fst (getProvider envValidKey OPENAI initial))) !! type
      = Some info ->
    type = OPENAI /\ info = ("OpenAI", true).
Proof.
  assert (H : reachable envValidKey
                (snd (fst (getProvider envValidKey OPENAI initial)))).
  { apply reach_getProvider. apply reach_initial. }
  split; [exact H|].
  apply (reachable_registry_consistent envValidKey _ H).
Defined.

(** X17. With a credential of the accepted shape, in every state the factory
    can be in, [getProvider] for the type openai returns a provider: it is
    ready, registered under that type and the singleton instance. *)
Theorem getProvider_usable_credential
    (openaiConfig : EnvConfig) (st : Statics) :
  credentialUsable openaiConfig ->
  reachable openaiConfig st ->
  exists p st' evs,
    getProvider openaiConfig OPENAI st = (Fulfilled (Some p), st', evs) /\
    isReady p = true /\
    providers st' !! OPENAI = Some p /\
    instance st' = Some p.
Proof.
  intros Husable Hreach.
  destruct (getProvider_usable openaiConfig st Husable
              (reachable_is_consistent openaiConfig st Hreach))
    as (p & st' & evs & Hget & Hr & Hp & Hi & _).
  exists p, st', evs. repeat split; assumption.
Qed.

Lemma getProvider_usable_credential_witness :
  credentialUsable envValidKey /\
  exists p st' evs,
    getProvider envValidKey OPENAI (fst (resetAll initial)) =
      (Fulfilled (Some p), st', evs) /\
    isReady p = true.
Proof.
  assert (Hu : credentialUsable envValidKey).
  { exists sampleKey. split; reflexivity. }
  split; [exact Hu|].
  destruct (getProvider_usable_credential envValidKey (fst (resetAll initial)) Hu)
    as (p & st' & evs & Hget & Hr & _).
  { apply reach_resetAll. apply reach_initial. }
  exists p, st', evs. split; assumption.
Defined.

(** X18. For a type other than openai, in every state the factory can be
    in, [getProvider] returns [null], changes nothing and logs the one error
    that names the unsupported type, whatever the credential is. *)
Theorem getProvider_unsupported_type
    (openaiConfig : EnvConfig) (type : string) (st : Statics) :
  reachable openaiConfig st ->
  type <> OPENAI ->
  getProvider openaiConfig type st =
    (Fulfilled None, st,
     [EvLog ErrorLevel ("Tipo de proveedor no soportado: " +:+ type)]).
Proof.
  intros Hreach Hne.
  destruct (getProvider_consistent openaiConfig type st
              (reachable_is_consistent openaiConfig st Hreach))
    as (result & st' & evs & Hget & _ & _ & _ & Hnone & _ & Hother).
  destruct (Hother Hne) as [-> ->]. rewrite (Hnone eq_refl) in Hget. exact Hget.
Qed.

Lemma getProvider_unsupported_type_witness :
  reachable envValidKey initial /\ "anthropic" <> OPENAI /\
  getProvider envValidKey "anthropic" initial =
    (Fulfilled None, initial,
     [EvLog ErrorLevel "Tipo de proveedor no soportado: anthropic"]).
Proof.
  split; [apply reach_initial|]. split; [discriminate|].
  apply (getProvider_unsupported_type envValidKey "anthropic" initial).
  - apply reach_initial.
  - discriminate.
Defined.

(** X19. In every state the factory can be in, [getAvailableProviders]
    lists the type openai when the credential is of the accepted shape, and
    lists nothing and changes nothing when the credential is missing or
    malformed; [isProviderAvailable] answers accordingly. *)
Theorem getAvailableProviders_by_credential
    (openaiConfig : EnvConfig) (st : Statics) :
  reachable openaiConfig st ->
  (credentialUsable openaiConfig ->
     fst (fst (getAvailableProviders openaiConfig st)) = [OPENAI] /\
     fst (fst (isProviderAvailable openaiConfig OPENAI st)) = true) /\
  (credentialUnusable openaiConfig ->
     fst (fst (getAvailableProviders openaiConfig st)) = [] /\
     snd (fst (getAvailableProviders openaiConfig st)) = st /\
     fst (fst (isProviderAvailable openaiConfig OPENAI st)) = false).
Proof.
  intros Hreach. split.
  - intros Hu.
    destruct (getProvider_usable openaiConfig st Hu
                (reachable_is_consistent openaiConfig st Hreach))
      as (p & st' & evs & Hget & Hr & _).
    unfold getAvailableProviders, availableLoop, isProviderAvailable.
    rewrite Hget, Hr. split; reflexivity.
  - intros Hbad.
    destruct (getProvider_pristine openaiConfig OPENAI st Hbad
                (reachable_pristine openaiConfig st Hbad Hreach))
      as (evs & Hget & _).
    unfold getAvailableProviders, availableLoop, isProviderAvailable.
    rewrite Hget. repeat split.
Qed.

Lemma getAvailableProviders_by_credential_witness :
  reachable envValidKey initial /\ credentialUsable envValidKey /\
  fst (fst (getAvailableProviders envValidKey initial)) = [OPENAI].
Proof.
  assert (Hu : credentialUsable envValidKey).
  { exists sampleKey. split; reflexivity. }
  split; [apply reach_initial|]. split; [exact Hu|].
  destruct (getAvailableProviders_by_credential envValidKey initial
              (reach_initial envValidKey)) as [H _].
  apply H. exact Hu.
Defined.

(** X20. With a credential of the accepted shape: after [resetAll] nothing
    is registered, and the next [getProvider] constructs a new provider,
    whose identity differs from that of the provider returned before the
    reset. *)
Theorem resetAll_forces_new_instance
    (openaiConfig : EnvConfig) (st st1 : Statics)
    (p : Instance) (evs : list Event) :
  credentialUsable openaiConfig ->
  reachable openaiConfig st ->
  getProvider openaiConfig OPENAI st = (Fulfilled (Some p), st1, evs) ->
  pristine (fst (resetAll st1)) /\
  exists q st2 evs2,
    getProvider openaiConfig OPENAI (fst (resetAll st1)) =
      (Fulfilled (Some q), st2, evs2) /\
    ref q <> ref p /\
    In EvNewClient evs2.
Proof.
  intros Hu Hreach Hget.
  split; [split; reflexivity|].
  destruct (getProvider_consistent openaiConfig OPENAI st
              (reachable_is_consistent openaiConfig st Hreach))
    as (result & st' & evs' & Hget' & _ & _ & Hsome & _).
  rewrite Hget in Hget'. inversion Hget'; subst result st' evs'.
  destruct (Hsome p eq_refl) as (_ & _ & _ & _ & Hlt & _).
  destruct (getProvider_usable openaiConfig (fst (resetAll st1)) Hu
              (resetAll_consistent st1))
    as (q & st2 & evs2 & Hget2 & _ & _ & _ & _ & Hfresh).
  destruct (Hfresh eq_refl) as [Hq Hnew].
  exists q, st2, evs2. split; [exact Hget2|]. split; [|exact Hnew].
  rewrite Hq. cbn. lia.
Qed.

Lemma resetAll_forces_new_instance_witness :
  exists p st1 evs q st2 evs2,
    getProvider envValidKey OPENAI initial = (Fulfilled (Some p), st1, evs) /\
    getProvider envValidKey OPENAI (fst (resetAll st1)) =
      (Fulfilled (Some q), st2, evs2) /\
    ref q <> ref p.
Proof.
  assert (Hu : credentialUsable envValidKey).
  { exists sampleKey. split; reflexivity. }
  destruct (getProvider_usable envValidKey initial Hu)
    as (p & st1 & evs & Hget & _).
  { split; cbn; [intros type p Hp; rewrite lookup_empty in Hp|]; discriminate. }
  destruct (resetAll_forces_new_instance envValidKey initial st1 p evs Hu
              (reach_initial envValidKey) Hget)
    as (_ & q & st2 & evs2 & Hget2 & Hne & _).
  exists p, st1, evs, q, st2, evs2. repeat split; assumption.
Defined.

(* ===================================================================== *)
(** * Further properties of the attach polling *)
(* ===================================================================== *)

Lemma loopBody_other_error retrieve maxAttempts attempt e :
  retrieve attempt = Rejected (Some e) -> is404 e = false ->
  fst (loopBody retrieve maxAttempts attempt) = Throw (Some e).
Proof.
  intros Hr He. unfold loopBody, tryBlock, catchBlock. rewrite Hr, He. reflexivity.
Qed.

Lemma loopBody_return retrieve maxAttempts attempt file :
  fst (loopBody retrieve maxAttempts attempt) = Return file ->
  file_status file = completed.
Proof.
  unfold loopBody, tryBlock, catchBlock.
  destruct (retrieve attempt) as [f|[e|]]; simpl.
  - destruct (file_status f) eqn:Hs; simpl; intros H; inversion H; subst; assumption.
  - destruct (is404 e && (attempt <? maxAttempts)); discriminate.
  - discriminate.
Qed.

(** The loop fulfils with completed files only. *)
Lemma waitLoop_fulfilled retrieve maxAttempts n : forall attempt delayMs file,
  fst (waitLoop retrieve maxAttempts n attempt delayMs) = Fulfilled file ->
  file_status file = completed.
Proof.
  induction n as [|n IH]; intros attempt delayMs file; [discriminate|].
  rewrite waitLoop_step. cbv zeta.
  pose proof (loopBody_return retrieve maxAttempts attempt) as Hret.
  destruct (loopBody retrieve maxAttempts attempt) as [[f|err|] tr]; cbn [fst] in *.
  - intros H. inversion H; subst. apply Hret. reflexivity.
  - discriminate.
  - specialize (IH (attempt + 1)
                  (if 1 <? attempt then nextDelay delayMs else delayMs) file).
    destruct (waitLoop retrieve maxAttempts n (attempt + 1) _) as [r rest].
    exact IH.
Qed.

(** X21. A poll that fails with an error other than a 404, after polls that
    were not yet ready, ends the polling at once: the loop raises that error
    after exactly that many polls, and the attach call raises its
    classification. *)
Theorem waitForVectorStoreFile_error_stops
    (retrieve : Z -> Completion (option JsError) VectorStoreFile)
    (maxAttempts k : Z) (initialDelayMs : Q) (e : JsError) :
  1 <= k <= maxAttempts ->
  (forall j, 1 <= j < k -> notYetReady (retrieve j)) ->
  retrieve k = Rejected (Some e) ->
  is404 e = false ->
  let run := waitForVectorStoreFile retrieve maxAttempts initialDelayMs in
  fst run = Rejected (Some e) /\
  polls (snd run) = Z.to_nat k /\
  (maxAttempts = 60 -> initialDelayMs = 1000%Q ->
   fst (createAndPollVectorStoreFile (Fulfilled (fileWith in_progress)) retrieve) =
     Rejected (mapOpenAIError (Some e))).
Proof.
  intros Hk Hpend Hr He run.
  pose proof (waitLoop_decided retrieve maxAttempts (Z.to_nat (k - 1))
                (Z.to_nat (maxAttempts - k)) 1 initialDelayMs (Throw (Some e))) as H.
  replace (1 + Z.of_nat (Z.to_nat (k - 1))) with k in H by lia.
  specialize (H Hpend ltac:(lia)
                (loopBody_other_error retrieve maxAttempts k e Hr He)
                ltac:(discriminate)).
  cbv zeta in H.
  replace (Z.to_nat (k - 1) + S (Z.to_nat (maxAttempts - k)))%nat
    with (Z.to_nat maxAttempts) in H by lia.
  destruct H as [H1 H2]. unfold run, waitForVectorStoreFile.
  split; [exact H1|]. split; [rewrite H2; lia|].
  intros -> ->.
  rewrite (createAndPoll_in_progress _ retrieve (fileWith in_progress) eq_refl eq_refl).
  unfold waitForVectorStoreFile. rewrite H1. reflexivity.
Qed.

Lemma waitForVectorStoreFile_error_stops_witness :
  (forall j, 1 <= j < 2 -> notYetReady (serverErrorAtSecondPoll j)) /\
  fst (waitForVectorStoreFile serverErrorAtSecondPoll 60 1000) =
    Rejected (Some vendor500) /\
  polls (snd (waitForVectorStoreFile serverErrorAtSecondPoll 60 1000)) = 2%nat.
Proof.
  assert (Hpend : forall j, 1 <= j < 2 -> notYetReady (serverErrorAtSecondPoll j)).
  { intros j Hj. assert (j = 1) by lia. subst j.
    left. exists (fileWith in_progress). split; reflexivity. }
  split; [exact Hpend|].
  destruct (waitForVectorStoreFile_error_stops serverErrorAtSecondPoll 60 2 1000
              vendor500 ltac:(lia) Hpend eq_refl eq_refl) as (H1 & H2 & _).
  split; assumption.
Defined.

(** X22. How the attach call ends. When the attach request itself fails,
    its classified error is raised and nothing is polled; when the attach
    request reports a status other than in progress, that record is
    returned at once, without a poll or a wait, a failed or cancelled one
    included; and whenever the call returns, the file info has an empty
    name, size 0 and a status other than in progress, which is completed if
    the attach request had reported in progress. *)
Theorem createAndPollVectorStoreFile_outcome
    (create : Completion (option JsError) VectorStoreFile)
    (retrieve : Z -> Completion (option JsError) VectorStoreFile) :
  let run := createAndPollVectorStoreFile create retrieve in
  (forall err, create = Rejected err ->
     fst run = Rejected (mapOpenAIError err) /\ polls (snd run) = O) /\
  (forall file, create = Fulfilled file -> file_status file <> in_progress ->
     fst run = Fulfilled (toFileInfo file) /\
     polls (snd run) = O /\ sleeps (snd run) = []) /\
  (forall info, fst run = Fulfilled info ->
     info_name info = EmptyString /\ info_size info = 0 /\
     info_status info <> "in_progress" /\
     (forall file, create = Fulfilled file -> file_status file = in_progress ->
        info_status info = "completed")).
Proof.
  intros run. unfold run, createAndPollVectorStoreFile.
  split; [|split].
  - intros err ->. split; reflexivity.
  - intros file -> Hs. destruct (file_status file); [contradiction| | |];
      repeat split.
  - intros info. destruct create as [file|err]; [|discriminate].
    destruct (file_status file) eqn:Hs.
    + pose proof (waitLoop_fulfilled retrieve 60 (Z.to_nat 60) 1 1000) as Hw.
      fold (waitForVectorStoreFile retrieve 60 1000) in Hw.
      destruct (waitForVectorStoreFile retrieve 60 1000) as [[processed|err] tr];
        [|discriminate].
      cbn [fst] in *. intros H. inversion H; subst info.
      specialize (Hw processed eq_refl). unfold toFileInfo. cbn. rewrite Hw.
      repeat split; try discriminate.
    + cbn [fst]. intros H. inversion H; subst info. unfold toFileInfo. cbn.
      rewrite Hs. repeat split; try discriminate; congruence.
    + cbn [fst]. intros H. inversion H; subst info. unfold toFileInfo. cbn.
      rewrite Hs. repeat split; try discriminate; congruence.
    + cbn [fst]. intros H. inversion H; subst info. unfold toFileInfo. cbn.
      rewrite Hs. repeat split; try discriminate; congruence.
Qed.

Lemma createAndPollVectorStoreFile_outcome_witness :
  fst (createAndPollVectorStoreFile (Fulfilled failedFile) neverReady) =
    Fulfilled (toFileInfo failedFile) /\
  info_status (toFileInfo failedFile) = "failed" /\
  polls (snd (createAndPollVectorStoreFile (Fulfilled failedFile) neverReady)) = O.
Proof.
  destruct (createAndPollVectorStoreFile_outcome (Fulfilled failedFile) neverReady)
    as (_ & H & _).
  destruct (H failedFile eq_refl) as (H1 & H2 & _); [discriminate|].
  split; [exact H1|]. split; [reflexivity | exact H2].
Defined.

Lemma totalWait_actions tr : totalWait (actions tr) = totalWait tr.
Proof.
  induction tr as [|ev tr IH]; [reflexivity|].
  destruct ev; simpl; rewrite ?IH; reflexivity.
Qed.

(** The waits of the schedules of up to 60 polls, checked one by one. *)
Lemma schedule_waits_checked :
  List.forallb
    (fun k =>
       Qle_bool (totalWait (schedule k)) 283125
       && List.forallb (fun ms => Qle_bool 1000 ms && Qle_bool ms 5000)
                       (sleeps (schedule k)))
    (List.seq 0 61) = true.
Proof. vm_compute. reflexivity. Qed.

Lemma schedule_waits k :
  (k <= 60)%nat ->
  (totalWait (schedule k) <= 283125)%Q /\
  List.Forall (fun ms => (1000 <= ms)%Q /\ (ms <= 5000)%Q) (sleeps (schedule k)).
Proof.
  intros Hk. pose proof schedule_waits_checked as H.
  rewrite List.forallb_forall in H.
  specialize (H k ltac:(apply List.in_seq; lia)).
  apply andb_true_iff in H as [H1 H2]. split; [apply Qle_bool_iff; exact H1|].
  rewrite List.forallb_forall in H2. apply List.Forall_forall.
  intros ms Hms. specialize (H2 ms Hms). apply andb_true_iff in H2 as [Ha Hb].
  split; apply Qle_bool_iff; assumption.
Qed.

(** X23. Whatever the polls answer, the polling loop with its default budget
    waits at most 283125 ms in all (1000 + 1500 + 2250 + 3375 and 55 times
    5000), each of its waits is between 1000 and 5000 ms, and the attach
    call waits no longer than the loop. *)
Theorem waitForVectorStoreFile_total_wait
    (create : Completion (option JsError) VectorStoreFile)
    (retrieve : Z -> Completion (option JsError) VectorStoreFile) :
  let tr := snd (waitForVectorStoreFile retrieve 60 1000) in
  (totalWait tr <= 283125)%Q /\
  List.Forall (fun ms => (1000 <= ms)%Q /\ (ms <= 5000)%Q) (sleeps tr) /\
  (totalWait (snd (createAndPollVectorStoreFile create retrieve)) <= 283125)%Q /\
  totalWait (snd (waitForVectorStoreFile neverReady 60 1000)) = 283125%Q.
Proof.
  intros tr.
  destruct (waitForVectorStoreFile_schedule retrieve 60) as (Ha & Hle & _).
  fold tr in Ha, Hle.
  destruct (schedule_waits (polls tr) ltac:(lia)) as [Ht Hs].
  assert (Htot : (totalWait tr <= 283125)%Q).
  { rewrite <- totalWait_actions, Ha. exact Ht. }
  split; [exact Htot|]. split; [rewrite <- sleeps_actions, Ha; exact Hs|].
  split; [|vm_compute; reflexivity].
  assert (Hzero : (0 <= 283125)%Q) by (apply Qle_bool_iff; reflexivity).
  unfold createAndPollVectorStoreFile.
  destruct create as [file|err]; [|exact Hzero].
  destruct (file_status file); try exact Hzero.
  unfold tr in Htot.
  destruct (waitForVectorStoreFile retrieve 60 1000) as [[processed|err] tr'];
    cbn [snd] in *; rewrite totalWait_sleeps, !sleeps_app;
    cbn [sleeps app attachFailedLog]; rewrite ?app_nil_r, <- totalWait_sleeps;
    exact Htot.
Qed.

(* ===================================================================== *)
(** * Properties of the object-storage adapter *)
(* ===================================================================== *)

Lemma stripTrailingSlashes_no_slash s :
  R2Provider.endsWithSlash (R2Provider.stripTrailingSlashes s) = false.
Proof.
  induction s as [|c rest IH]; [reflexivity|].
  cbn [R2Provider.stripTrailingSlashes].
  destruct (Ascii.eqb c R2Provider.slash) eqn:Hc;
    destruct (R2Provider.stripTrailingSlashes rest) as [|c' rest'] eqn:Hr;
    cbn; try reflexivity; try exact Hc; exact IH.
Qed.

Lemma stripTrailingSlashes_slashes n :
  R2Provider.stripTrailingSlashes (R2Provider.slashes n) = EmptyString.
Proof.
  induction n as [|n IH]; [reflexivity|].
  cbn [R2Provider.slashes R2Provider.stripTrailingSlashes]. rewrite IH.
  rewrite Ascii.eqb_refl. reflexivity.
Qed.

Lemma stripTrailingSlashes_append u n :
  R2Provider.endsWithSlash u = false ->
  R2Provider.stripTrailingSlashes (u +:+ R2Provider.slashes n) = u.
Proof.
  induction u as [|c u IH]; intros Hu.
  - apply stripTrailingSlashes_slashes.
  - change (String c u +:+ R2Provider.slashes n)
      with (String c (u +:+ R2Provider.slashes n)).
    change (R2Provider.stripTrailingSlashes (String c (u +:+ R2Provider.slashes n)))
      with (let rest' := R2Provider.stripTrailingSlashes (u +:+ R2Provider.slashes n) in
            if Ascii.eqb c R2Provider.slash && String.eqb rest' EmptyString
            then EmptyString else String c rest').
    cbv zeta.
    destruct u as [|c' u'].
    + change (EmptyString +:+ R2Provider.slashes n) with (R2Provider.slashes n).
      rewrite stripTrailingSlashes_slashes. cbn in Hu. rewrite Hu. reflexivity.
    + rewrite IH by exact Hu. rewrite andb_false_r. reflexivity.
Qed.

Lemma stripTrailingSlashes_decompose s :
  exists n, s = R2Provider.stripTrailingSlashes s +:+ R2Provider.slashes n.
Proof.
  induction s as [|c rest [n IH]]; [exists O; reflexivity|].
  cbn [R2Provider.stripTrailingSlashes].
  destruct (Ascii.eqb_spec c R2Provider.slash) as [->|Hc];
    [destruct (String.eqb_spec (R2Provider.stripTrailingSlashes rest) EmptyString)
       as [He|He]|]; cbn [andb].
  - exists (S n). rewrite He in IH.
    change (String R2Provider.slash rest =
            String R2Provider.slash (R2Provider.slashes n)).
    f_equal. exact IH.
  - exists n.
    change (String R2Provider.slash rest =
            String R2Provider.slash
              (R2Provider.stripTrailingSlashes rest +:+ R2Provider.slashes n)).
    f_equal. exact IH.
  - exists n.
    change (String c rest =
            String c (R2Provider.stripTrailingSlashes rest +:+ R2Provider.slashes n)).
    f_equal. exact IH.
Qed.

Lemma append_empty_r (s : string) : s +:+ EmptyString = s.
Proof.
  induction s as [|c s IH]; [reflexivity|].
  change (String c (s +:+ EmptyString) = String c s). f_equal. exact IH.
Qed.

(** X24. Removing the trailing slashes: the result does not end with a
    slash, the input is the result followed by slashes only, a text that
    does not end with a slash is left as it is however many slashes are
    appended to it, and removing twice is removing once. *)
Theorem stripTrailingSlashes_spec (s : string) :
  R2Provider.endsWithSlash (R2Provider.stripTrailingSlashes s) = false /\
  (exists n, s = R2Provider.stripTrailingSlashes s +:+ R2Provider.slashes n) /\
  (forall n, R2Provider.endsWithSlash s = false ->
     R2Provider.stripTrailingSlashes (s +:+ R2Provider.slashes n) = s) /\
  R2Provider.stripTrailingSlashes (R2Provider.stripTrailingSlashes s) =
    R2Provider.stripTrailingSlashes s.
Proof.
  split; [apply stripTrailingSlashes_no_slash|].
  split; [apply stripTrailingSlashes_decompose|].
  split; [intros n Hs; apply stripTrailingSlashes_append; exact Hs|].
  pose proof (stripTrailingSlashes_append (R2Provider.stripTrailingSlashes s) 0
                (stripTrailingSlashes_no_slash s)) as H.
  cbn [R2Provider.slashes] in H.
  rewrite append_empty_r in H. exact H.
Qed.

Lemma stripTrailingSlashes_spec_witness :
  R2Provider.endsWithSlash "https://cdn.example.org" = false /\
  R2Provider.stripTrailingSlashes
    ("https://cdn.example.org" +:+ R2Provider.slashes 2) =
    "https://cdn.example.org".
Proof.
  split; [reflexivity|].
  destruct (stripTrailingSlashes_spec "https://cdn.example.org") as (_ & _ & H & _).
  apply H. reflexivity.
Defined.

(** X25. The presigned upload link. The call fails exactly when the signing
    fails, with the same error; otherwise it returns the signed address, the
    key it was given and the expiry it was given, 300 seconds when none was.
    The public link is empty for a private bucket; for a public bucket whose
    configured public base address is a non-empty text [u] that does not end
    with a slash, followed by any number of slashes, it is [u], a slash, the
    bucket, a slash and the key; and when no public base address is
    configured the endpoint is used in the same way. *)
Theorem getPresignedPutUrl_public_link
    (cfg : R2Provider.R2Config)
    (signed : Completion (option JsError) string)
    (bucketName key contentType : string) (expiresInSeconds : option Z) :
  let call := R2Provider.getPresignedPutUrl cfg signed bucketName key
                contentType expiresInSeconds in
  (forall err, signed = Rejected err -> call = Rejected err) /\
  (forall url, signed = Fulfilled url ->
     exists r, call = Fulfilled r /\
       R2Provider.uploadUrl r = url /\
       R2Provider.put_key r = key /\
       R2Provider.put_expiresIn r = default 300 expiresInSeconds /\
       (R2Provider.bucketPublic cfg = false ->
          R2Provider.publicUrl r = EmptyString) /\
       (forall u n,
          R2Provider.bucketPublic cfg = true ->
          u <> EmptyString -> R2Provider.endsWithSlash u = false ->
          R2Provider.publicBaseUrl cfg = Some (u +:+ R2Provider.slashes n) \/
          truthyStr (R2Provider.publicBaseUrl cfg) = false /\
          R2Provider.endpoint cfg = Some (u +:+ R2Provider.slashes n) ->
          R2Provider.publicUrl r = u +:+ "/" +:+ bucketName +:+ "/" +:+ key)).
Proof.
  intros call. unfold call, R2Provider.getPresignedPutUrl.
  split; [intros err ->; reflexivity|].
  intros url ->. eexists. split; [reflexivity|].
  cbn [R2Provider.uploadUrl R2Provider.put_key R2Provider.put_expiresIn
       R2Provider.publicUrl].
  split; [reflexivity|]. split; [reflexivity|].
  split; [destruct expiresInSeconds; reflexivity|].
  split.
  - intros Hpriv. unfold R2Provider.publicUrlOf. rewrite Hpriv. reflexivity.
  - intros u n Hpub Hne Hend Hbase.
    assert (Hnonempty : String.eqb (u +:+ R2Provider.slashes n) EmptyString = false).
    { destruct u; [contradiction | reflexivity]. }
    assert (Hcfg : orStrDefault
                     (orStr (R2Provider.publicBaseUrl cfg) (R2Provider.endpoint cfg))
                     EmptyString = u +:+ R2Provider.slashes n).
    { destruct Hbase as [Hb | [Hb He]].
      - unfold orStr, truthyStr, orStrDefault. rewrite Hb, Hnonempty. cbn.
        rewrite Hnonempty. reflexivity.
      - unfold orStr, orStrDefault. rewrite Hb, He, Hnonempty. reflexivity. }
    unfold R2Provider.publicUrlOf. rewrite Hpub, Hcfg.
    rewrite stripTrailingSlashes_append by exact Hend.
    apply String.eqb_neq in Hne. rewrite Hne. reflexivity.
Qed.

Lemma getPresignedPutUrl_public_link_witness :
  exists r,
    R2Provider.getPresignedPutUrl r2Public (Fulfilled "https://signed.example/put")
      "agentik" "photos/a.png" "image/png" None = Fulfilled r /\
    R2Provider.publicUrl r = "https://cdn.example.org/agentik/photos/a.png" /\
    R2Provider.put_expiresIn r = 300.
Proof.
  destruct (getPresignedPutUrl_public_link r2Public
              (Fulfilled "https://signed.example/put")
              "agentik" "photos/a.png" "image/png" None) as (_ & H).
  destruct (H _ eq_refl) as (r & Hr & _ & _ & He & _ & Hp).
  exists r. split; [exact Hr|]. split; [|exact He].
  apply (Hp "https://cdn.example.org" 2%nat);
    [reflexivity | discriminate | reflexivity | left; reflexivity].
Defined.

(* ===================================================================== *)
(** * The configuration shown for debugging *)
(* ===================================================================== *)

(** X26. For every provider the constructor builds, the configuration shown
    by [getConfigInfo] names the provider OpenAI, reports it ready, and shows
    as credential only the masked form: 14 characters, the first 7 and the
    last 4 of the credential around three dots, in which the credential
    itself does not occur. *)
Theorem getConfigInfo_masks_credential
    (cfg : PartialConfig) (st st' : Statics) (inst : Instance) (evs : list Event) :
  OpenAIProvider.construct cfg st = (Fulfilled inst, st', evs) ->
  let info := getConfigInfo inst in
  ci_provider info = "OpenAI" /\
  ci_isReady info = true /\
  read (p_apiKey cfg) = Some (apiKey (config inst)) /\
  ci_apiKey info =
    String.substring 0 7 (apiKey (config inst)) +:+ "..." +:+
    String.substring (String.length (apiKey (config inst)) - 4) 4
                     (apiKey (config inst)) /\
  String.length (ci_apiKey info) = 14%nat /\
  ~ occursIn (apiKey (config inst)) (ci_apiKey info).
Proof.
  unfold OpenAIProvider.construct.
  pose proof (validateAndMergeConfig_cases cfg) as Hp.
  destruct (read (p_apiKey cfg)) as [key|]; [|destruct Hp as [msg ->]; discriminate].
  destruct (isValidApiKey key) eqn:Hv; [|destruct Hp as [msg ->]; discriminate].
  rewrite Hp. intros H. inversion H; subst inst. cbv zeta.
  unfold getConfigInfo. cbn.
  destruct (getMaskedApiKey_hides_valid key Hv) as [Hlen Hhide].
  repeat split; try assumption.
  apply getMaskedApiKey_long. apply isValidApiKey_length in Hv. lia.
Qed.

Lemma getConfigInfo_masks_credential_witness :
  exists inst st' evs,
    OpenAIProvider.construct (factoryConfig sampleKey None) initial =
      (Fulfilled inst, st', evs) /\
    ci_apiKey (getConfigInfo inst) = "sk-proj...ghij".
Proof.
  do 3 eexists. split; [reflexivity|].
  match goal with |- ci_apiKey (getConfigInfo ?i) = _ =>
    destruct (getConfigInfo_masks_credential (factoryConfig sampleKey None)
                initial _ i _ eq_refl) as (_ & _ & _ & H & _)
  end.
  rewrite H. reflexivity.
Defined.
